(** * AWS-S3-Visualizer: the S3 virtual file system adapter

    A shallow embedding of [src/hooks/useS3System.js]: the validators, the
    listing view, default-folder seeding, folder creation, recursive
    deletion, copy and rename, run against a model of the object store.

    Conventions.
    - A JavaScript string is a [string]: each [ascii] is one code unit in
      the range 0..255.
    - An [async] function is a computation in the monad [M]: it threads the
      state of the world (the bucket and the log of the commands sent to
      it) and either returns or throws.
    - The bucket is a finite map from keys to objects; [send_list],
      [send_put], [send_copy] and [send_delete] give the answer of the
      store to the four commands of the SDK.  Requests reach the store:
      the only failures are the ones the store itself answers with. *)

From Stdlib Require Import Ascii NArith Lia.
From stdpp Require Import base option list strings gmap sorting.

Local Open Scope stdpp_scope.

(* Concatenation unfolds on a literal head. *)
Local Arguments String.append !_ _ / : simpl nomatch.

(** ** JavaScript strings *)

Module Js.

(** Code unit of a character. *)
Definition code (c : ascii) : N := N_of_ascii c.

(** [s.length]. *)
Definition length (s : string) : nat := String.length s.

(** [s.startsWith(p)]. *)
Fixpoint startsWith (s p : string) : bool :=
  match p, s with
  | EmptyString, _ => true
  | String _ _, EmptyString => false
  | String a p', String b s' => Ascii.eqb a b && startsWith s' p'
  end.

(** [s.endsWith(p)]: some tail of [s] is [p]. *)
Fixpoint endsWith (s p : string) : bool :=
  String.eqb s p ||
  match s with
  | EmptyString => false
  | String _ s' => endsWith s' p
  end.

(** [s.slice(n)] for an index [0 <= n]. *)
Fixpoint slice (n : nat) (s : string) : string :=
  match n, s with
  | O, _ => s
  | S _, EmptyString => EmptyString
  | S n', String _ s' => slice n' s'
  end.

(** The first [n] code units of [s], [s.slice(0, n)]. *)
Fixpoint slice_to (n : nat) (s : string) : string :=
  match n, s with
  | O, _ => EmptyString
  | S _, EmptyString => EmptyString
  | S n', String c s' => String c (slice_to n' s')
  end.

(** [s.indexOf(p)]: the least index at which [p] occurs in [s]. *)
Fixpoint indexOf (s p : string) : option nat :=
  if startsWith s p then Some O
  else match s with
       | EmptyString => None
       | String _ s' => S <$> indexOf s' p
       end.

(** WhiteSpace and LineTerminator code units (what [\s] matches and what
    [trim] strips): TAB, LF, VT, FF, CR, SP and NBSP. *)
Definition is_white_space (c : ascii) : bool :=
  let n := code c in
  ((9 <=? n) && (n <=? 13) || (n =? 32) || (n =? 160))%N.

Fixpoint trimStart (s : string) : string :=
  match s with
  | EmptyString => EmptyString
  | String c s' => if is_white_space c then trimStart s' else s
  end.

Fixpoint trimEnd (s : string) : string :=
  match s with
  | EmptyString => EmptyString
  | String c s' =>
      match trimEnd s' with
      | EmptyString => if is_white_space c then EmptyString else String c EmptyString
      | t => String c t
      end
  end.

(** [s.trim()]. *)
Definition trim (s : string) : string := trimEnd (trimStart s).

(** The replacement text of [String.prototype.replace] with a string
    pattern (GetSubstitution without captures): [$$] is a dollar, [$&] the
    matched text, [$`] the text before the match, [$'] the text after it;
    every other character, a dollar included, stands for itself. *)
Fixpoint getSubstitution (matched before after repl : string) : string :=
  match repl with
  | EmptyString => EmptyString
  | String "$" (String "$" r) =>
      String "$" (getSubstitution matched before after r)
  | String "$" (String "&" r) =>
      matched +:+ getSubstitution matched before after r
  | String "$" (String "`" r) =>
      before +:+ getSubstitution matched before after r
  | String "$" (String "'" r) =>
      after +:+ getSubstitution matched before after r
  | String c r => String c (getSubstitution matched before after r)
  end.

(** [s.replace(pat, repl)] with a string pattern: only the first
    occurrence is replaced. *)
Definition replace (s pat repl : string) : string :=
  match indexOf s pat with
  | None => s
  | Some i =>
      let before := slice_to i s in
      let after := slice (i + length pat) s in
      before +:+ getSubstitution pat before after repl +:+ after
  end.

(** Truthiness of a string: only the empty string is falsy. *)
Definition truthy (s : string) : bool :=
  match s with EmptyString => false | _ => true end.

(** Every code unit of [s] satisfies [f]. *)
Fixpoint every (f : ascii -> bool) (s : string) : bool :=
  match s with
  | EmptyString => true
  | String c s' => f c && every f s'
  end.

(** Some code unit of [s] satisfies [f]. *)
Fixpoint some (f : ascii -> bool) (s : string) : bool :=
  match s with
  | EmptyString => false
  | String c s' => f c || some f s'
  end.

Definition first (s : string) : option ascii :=
  match s with
  | EmptyString => None
  | String c _ => Some c
  end.

Fixpoint last (s : string) : option ascii :=
  match s with
  | EmptyString => None
  | String c EmptyString => Some c
  | String _ s' => last s'
  end.

Definition hex_digit (n : N) : ascii :=
  ascii_of_N (if (n <? 10)%N then 48 + n else 55 + n).

Definition percent (b : N) : string :=
  String "%" (String (hex_digit (b / 16)) (String (hex_digit (b mod 16)) EmptyString)).

Definition in_range (lo hi : N) (c : ascii) : bool :=
  ((lo <=? code c) && (code c <=? hi))%N.

(** The characters [encodeURIComponent] leaves alone:
    [A-Z a-z 0-9 - _ . ! ~ * ' ( )]. *)
Definition uri_unreserved (c : ascii) : bool :=
  in_range 65 90 c || in_range 97 122 c || in_range 48 57 c ||
  some (Ascii.eqb c) "-_.!~*'()".

(** [encodeURIComponent(s)]: every other code unit is escaped as the
    bytes of its UTF-8 encoding. *)
Fixpoint encodeURIComponent (s : string) : string :=
  match s with
  | EmptyString => EmptyString
  | String c s' =>
      (if uri_unreserved c then String c EmptyString
       else if (code c <? 128)%N then percent (code c)
       else percent (192 + code c / 64) +:+ percent (128 + code c mod 64))
      +:+ encodeURIComponent s'
  end.

End Js.

(** ** Regular expressions

    The two patterns of the source use character classes, escaped
    characters, sequencing, [*], [+] and [{3}], between [^] and [$]. *)

Module Regex.

Inductive class_item : Type :=
  | CChar (c : ascii)             (* a literal or escaped character *)
  | CRange (lo hi : ascii)        (* lo-hi *)
  | CSpace                        (* \s *)
  | CWord.                        (* \w *)

Definition in_range := Js.in_range.

(** [\w] is [A-Za-z0-9_]. *)
Definition is_word (c : ascii) : bool :=
  in_range 65 90 c || in_range 97 122 c || in_range 48 57 c || Ascii.eqb c "_".

Definition item_matches (i : class_item) (c : ascii) : bool :=
  match i with
  | CChar d => Ascii.eqb d c
  | CRange lo hi => in_range (Js.code lo) (Js.code hi) c
  | CSpace => Js.is_white_space c
  | CWord => is_word c
  end.

Inductive regex : Type :=
  | Never
  | Eps
  | Class (negated : bool) (items : list class_item)
  | Seq (r1 r2 : regex)
  | Alt (r1 r2 : regex)
  | Star (r : regex).

Definition Lit (c : ascii) : regex := Class false [CChar c].
Definition Plus (r : regex) : regex := Seq r (Star r).
Fixpoint Times (n : nat) (r : regex) : regex :=
  match n with
  | O => Eps
  | S n' => Seq r (Times n' r)
  end.

Definition class_matches (negated : bool) (items : list class_item) (c : ascii) : bool :=
  xorb negated (existsb (fun i => item_matches i c) items).

Fixpoint nullable (r : regex) : bool :=
  match r with
  | Never => false
  | Eps => true
  | Class _ _ => false
  | Seq r1 r2 => nullable r1 && nullable r2
  | Alt r1 r2 => nullable r1 || nullable r2
  | Star _ => true
  end.

(** Brzozowski derivative: what remains to be matched after [c]. *)
Fixpoint deriv (c : ascii) (r : regex) : regex :=
  match r with
  | Never => Never
  | Eps => Never
  | Class negated items => if class_matches negated items c then Eps else Never
  | Seq r1 r2 =>
      if nullable r1 then Alt (Seq (deriv c r1) r2) (deriv c r2)
      else Seq (deriv c r1) r2
  | Alt r1 r2 => Alt (deriv c r1) (deriv c r2)
  | Star r' => Seq (deriv c r') (Star r')
  end.

(** [/^r$/.test(s)]: the whole of [s] matches [r]. *)
Fixpoint test (r : regex) (s : string) : bool :=
  match s with
  | EmptyString => nullable r
  | String c s' => test (deriv c r) s'
  end.

(** The language of a pattern. *)
Inductive lang : regex -> string -> Prop :=
  | lang_eps : lang Eps EmptyString
  | lang_class negated items c :
      class_matches negated items c = true ->
      lang (Class negated items) (String c EmptyString)
  | lang_seq r1 r2 s1 s2 :
      lang r1 s1 -> lang r2 s2 -> lang (Seq r1 r2) (s1 +:+ s2)
  | lang_alt_l r1 r2 s : lang r1 s -> lang (Alt r1 r2) s
  | lang_alt_r r1 r2 s : lang r2 s -> lang (Alt r1 r2) s
  | lang_star_nil r : lang (Star r) EmptyString
  | lang_star_cons r s1 s2 :
      lang r s1 -> lang (Star r) s2 -> lang (Star r) (s1 +:+ s2).

End Regex.

(** ** The validators of the source *)

Import Regex.

(** [/^[\w,\s-]+\.[A-Za-z]{3}$/] *)
Definition fileNameClass : list class_item :=
  [CWord; CChar ","; CSpace; CChar "-"].
Definition letterClass : list class_item :=
  [CRange "A" "Z"; CRange "a" "z"].
Definition fileNameRegex : regex :=
  Seq (Plus (Class false fileNameClass))
      (Seq (Lit ".") (Times 3 (Class false letterClass))).

(** [fileName && /^[\w,\s-]+\.[A-Za-z]{3}$/.test(fileName.trim())] *)
Definition isValidFileName (fileName : string) : bool :=
  Js.truthy fileName && Regex.test fileNameRegex (Js.trim fileName).

(** The negated classes of the folder pattern, item by item, the double
    quote (which the source writes twice) as its code 034.
    [edgeClass] is [[^\s^\x00-\x1f\\?*:QQ;<>|\/.]] (first and last
    position), [innerClass] is [[^\x00-\x1f\\?*:QQ;<>|\/]], with Q for
    the double quote. *)
Definition edgeClass : list class_item :=
  [CSpace; CChar "^"; CRange "000" "031"; CChar "\"; CChar "?"; CChar "*";
   CChar ":"; CChar "034"; CChar "034"; CChar ";"; CChar "<"; CChar ">";
   CChar "|"; CChar "/"; CChar "."].
Definition innerClass : list class_item :=
  [CRange "000" "031"; CChar "\"; CChar "?"; CChar "*";
   CChar ":"; CChar "034"; CChar "034"; CChar ";"; CChar "<"; CChar ">";
   CChar "|"; CChar "/"].
Definition folderNameRegex : regex :=
  Seq (Class true edgeClass)
      (Seq (Star (Class true innerClass)) (Plus (Class true edgeClass))).

(** [folderName && /^...$/g.test(folderName.trim())]; the pattern is a
    literal evaluated at each call, so [lastIndex] is 0 and the [g] flag
    changes nothing. *)
Definition isValidFolderName (folderName : string) : bool :=
  Js.truthy folderName && Regex.test folderNameRegex (Js.trim folderName).

(** ** The object store

    The bucket of the deployment, seen through the four commands the
    module sends.  Keys are listed in code-unit order, one page at a time:
    a page holds at most [maxKeysCeiling] entries (1000 for S3), an entry
    being an object or, under a delimiter, a common prefix.  A response
    leaves [Contents] and [CommonPrefixes] undefined when the page has none
    (the members are optional in the SDK, and the source reads them with
    [?.] in [listContents], [ensureDefaultFoldersExist] and
    [checkIfFileExists]).  A batch deletion names between one key and a
    page of keys. *)

(** What the module reads from its environment. *)
Class Config : Type := {
  bucketName : string;                (* VITE_BUCKET_NAME *)
  excludeRegex_test : string -> bool; (* excludeRegex.test, VITE_EXCLUDE_PATTERN *)
  maxKeysCeiling : nat                (* page size of the store *)
}.

Record StoredObject : Type := {
  stored_size : N;
  stored_at : N
}.

(** An opaque cursor: the listing resumes after the entry it names. *)
Inductive ContinuationToken : Type :=
  | ResumeAfter (name : string).

Record ListObjectsV2Command : Type := {
  list_Prefix : string;
  list_Delimiter : option string;
  list_MaxKeys : option nat;
  list_ContinuationToken : option ContinuationToken
}.

Record PutObjectCommand : Type := {
  put_Key : string;
  put_Body : option N               (* length of the body, when given *)
}.

Record CopyObjectCommand : Type := {
  copy_CopySource : string;
  copy_Key : string
}.

Record DeleteObjectsCommand : Type := {
  delete_Objects : list string      (* the Key of each element *)
}.

Inductive Command : Type :=
  | SentList (c : ListObjectsV2Command)
  | SentPut (c : PutObjectCommand)
  | SentCopy (c : CopyObjectCommand)
  | SentDelete (c : DeleteObjectsCommand).

(** An element of [Contents]. *)
Record ObjectSummary : Type := {
  Key : string;
  Size : N;
  LastModified : N
}.

Record ListObjectsV2Output : Type := {
  Contents : option (list ObjectSummary);
  CommonPrefixes : option (list string);   (* the Prefix of each element *)
  IsTruncated : bool;
  NextContinuationToken : option ContinuationToken
}.

Inductive JsError : Type :=
  | Error (message : string)
  | TypeError (message : string)
  | S3ServiceException (name : string).

Record World : Type := {
  bucket : gmap string StoredObject;
  clock : N;
  sent : list Command
}.

Inductive Outcome (A : Type) : Type :=
  | Returned (a : A)
  | Thrown (e : JsError)
  | OutOfFuel.
Arguments Returned {A} a.
Arguments Thrown {A} e.
Arguments OutOfFuel {A}.

(** An [async] computation. *)
Definition M (A : Type) : Type := World -> Outcome A * World.

Definition ret {A} (a : A) : M A := fun w => (Returned a, w).
Definition throw {A} (e : JsError) : M A := fun w => (Thrown e, w).
Definition out_of_fuel {A} : M A := fun w => (OutOfFuel, w).
Definition bind {A B} (m : M A) (k : A -> M B) : M B :=
  fun w =>
    match m w with
    | (Returned a, w') => k a w'
    | (Thrown e, w') => (Thrown e, w')
    | (OutOfFuel, w') => (OutOfFuel, w')
    end.
(** [try { m } catch (error) { handler(error) }] *)
Definition try_catch {A} (m : M A) (handler : JsError -> M A) : M A :=
  fun w =>
    match m w with
    | (Thrown e, w') => handler e w'
    | r => r
    end.

Notation "'let*' x ':=' m 'in' k" := (bind m (fun x => k))
  (at level 10, x name, m at level 100, k at level 200).
Notation "m ';;;' k" := (bind m (fun _ => k))
  (at level 100, k at level 200, right associativity).

(** [for (const x of l) { await body(x) }] *)
Fixpoint for_of {A} (l : list A) (body : A -> M unit) : M unit :=
  match l with
  | [] => ret tt
  | x :: l' => body x ;;; for_of l' body
  end.

(** Reading a member of, or iterating over, a value that may be
    undefined. *)
Definition defined {A} (o : option A) (what : string) : M A :=
  match o with
  | Some a => ret a
  | None => throw (TypeError what)
  end.

(** The world after one more command was sent. *)
Definition with_sent (w : World) (c : Command) : World :=
  {| bucket := bucket w; clock := clock w; sent := sent w ++ [c] |}.

Definition log (c : Command) : M unit :=
  fun w => (Returned tt, with_sent w c).

Definition outcome {A} (r : Outcome A * World) : Outcome A := fst r.
Definition world {A} (r : Outcome A * World) : World := snd r.

Section Store.
Context {cfg : Config}.

Inductive Entry : Type :=
  | EObject (o : ObjectSummary)
  | ECommonPrefix (p : string).

Global Instance ObjectSummary_eq_dec : EqDecision ObjectSummary.
Proof. solve_decision. Defined.
Global Instance Entry_eq_dec : EqDecision Entry.
Proof. solve_decision. Defined.

Definition entry_name (e : Entry) : string :=
  match e with
  | EObject o => Key o
  | ECommonPrefix p => p
  end.

Definition key_le (a b : string * StoredObject) : Prop :=
  String.leb (fst a) (fst b) = true.

Global Instance key_le_dec a b : Decision (key_le a b).
Proof. unfold key_le. apply _. Defined.

(** The objects of the bucket in key order. *)
Definition sorted_objects (m : gmap string StoredObject) : list (string * StoredObject) :=
  merge_sort key_le (map_to_list m).

(** The element of [Contents] for a stored object. *)
Definition summary_of (kv : string * StoredObject) : ObjectSummary :=
  {| Key := fst kv; Size := stored_size (snd kv);
     LastModified := stored_at (snd kv) |}.

(** The objects whose key starts with [prefix], in key order. *)
Definition objects_under (prefix : string) (m : gmap string StoredObject)
    : list (string * StoredObject) :=
  List.filter (fun kv => Js.startsWith (fst kv) prefix) (sorted_objects m).

(** Under a delimiter, a key that has the delimiter after the prefix is
    rolled up into the common prefix that ends at its first occurrence. *)
Definition classify (prefix : string) (delimiter : option string)
    (kv : string * StoredObject) : Entry :=
  match delimiter with
  | None => EObject (summary_of kv)
  | Some d =>
      let rest := Js.slice (Js.length prefix) (fst kv) in
      match Js.indexOf rest d with
      | Some i => ECommonPrefix (prefix +:+ Js.slice_to (i + Js.length d) rest)
      | None => EObject (summary_of kv)
      end
  end.

Definition after_token (t : option ContinuationToken) (e : Entry) : bool :=
  match t with
  | None => true
  | Some (ResumeAfter n) => String.ltb n (entry_name e)
  end.

(** Each common prefix is listed once, where its first key stands;
    [seen] holds the common prefixes listed so far. *)
Fixpoint roll_up (seen : gset string) (l : list Entry) : list Entry :=
  match l with
  | [] => []
  | EObject o :: l' => EObject o :: roll_up seen l'
  | ECommonPrefix p :: l' =>
      if decide (p ∈ seen) then roll_up seen l'
      else ECommonPrefix p :: roll_up ({[p]} ∪ seen) l'
  end.

(** Every entry the command selects, in order, each common prefix once. *)
Definition selected (c : ListObjectsV2Command) (m : gmap string StoredObject) : list Entry :=
  List.filter (after_token (list_ContinuationToken c))
    (roll_up ∅
       (classify (list_Prefix c) (list_Delimiter c) <$>
          objects_under (list_Prefix c) m)).

Definition page_size (c : ListObjectsV2Command) : nat :=
  match list_MaxKeys c with
  | Some n => Nat.min n maxKeysCeiling
  | None => maxKeysCeiling
  end.

Definition objects_of (l : list Entry) : list ObjectSummary :=
  omap (fun e => match e with EObject o => Some o | _ => None end) l.
Definition prefixes_of (l : list Entry) : list string :=
  omap (fun e => match e with ECommonPrefix p => Some p | _ => None end) l.

Definition if_any {A} (l : list A) : option (list A) :=
  match l with
  | [] => None
  | _ => Some l
  end.

Definition list_objects_v2 (c : ListObjectsV2Command) (m : gmap string StoredObject)
    : ListObjectsV2Output :=
  let all := selected c m in
  let page := take (page_size c) all in
  let more := negb (length all <=? page_size c) in
  {| Contents := if_any (objects_of page);
     CommonPrefixes := if_any (prefixes_of page);
     IsTruncated := more;
     NextContinuationToken :=
       if more then (fun e => ResumeAfter (entry_name e)) <$> last page else None |}.

(** [await s3Client.send(new ListObjectsV2Command(c))] *)
Definition send_list (c : ListObjectsV2Command) : M ListObjectsV2Output :=
  log (SentList c) ;;;
  fun w => (Returned (list_objects_v2 c (bucket w)), w).

(** [await s3Client.send(new PutObjectCommand(c))]: the object is
    (over)written, with an empty body when none is given. *)
Definition send_put (c : PutObjectCommand) : M unit :=
  log (SentPut c) ;;;
  fun w =>
    (Returned tt,
     {| bucket := <[put_Key c := {| stored_size := default 0%N (put_Body c);
                                    stored_at := clock w |}]> (bucket w);
        clock := N.succ (clock w);
        sent := sent w |}).

(** The key a [CopySource] of the form [bucket/key] names. *)
Definition source_key (copySource : string) : option string :=
  if Js.startsWith copySource (bucketName +:+ "/")
  then Some (Js.slice (Js.length bucketName + 1) copySource)
  else None.

(** [await s3Client.send(new CopyObjectCommand(c))] *)
Definition send_copy (c : CopyObjectCommand) : M unit :=
  log (SentCopy c) ;;;
  fun w =>
    match source_key (copy_CopySource c) with
    | None => (Thrown (S3ServiceException "NoSuchBucket"), w)
    | Some k =>
        match bucket w !! k with
        | None => (Thrown (S3ServiceException "NoSuchKey"), w)
        | Some o =>
            (Returned tt,
             {| bucket := <[copy_Key c := {| stored_size := stored_size o;
                                             stored_at := clock w |}]> (bucket w);
                clock := N.succ (clock w);
                sent := sent w |})
        end
    end.

(** [await s3Client.send(new DeleteObjectsCommand(c))]: a request names
    between one key and a page of keys. *)
Definition send_delete (c : DeleteObjectsCommand) : M unit :=
  log (SentDelete c) ;;;
  fun w =>
    if (length (delete_Objects c) =? 0) || negb (length (delete_Objects c) <=? maxKeysCeiling)
    then (Thrown (S3ServiceException "MalformedXML"), w)
    else
      (Returned tt,
       {| bucket := foldr delete (bucket w) (delete_Objects c);
          clock := clock w;
          sent := sent w |}).

(** The number of objects whose key starts with [prefix]. *)
Definition count_under (prefix : string) (m : gmap string StoredObject) : nat :=
  length (objects_under prefix m).

End Store.

(** The number of batch deletions in a log of commands. *)
Definition delete_calls (l : list Command) : nat :=
  length (List.filter (fun c => match c with SentDelete _ => true | _ => false end) l).

(** The number of copies and batch deletions in a log of commands. *)
Definition mutating_calls (l : list Command) : nat :=
  length (List.filter
            (fun c => match c with SentCopy _ | SentDelete _ => true | _ => false end) l).

(** A plain listing of everything under a prefix, as [copyFolderContents],
    [deleteFolderAndContents] and [renameFile] ask for it. *)
Definition list_all (prefix : string) : ListObjectsV2Command :=
  {| list_Prefix := prefix; list_Delimiter := None;
     list_MaxKeys := None; list_ContinuationToken := None |}.

(** The listing of the children of a prefix, as [listContents] and
    [ensureDefaultFoldersExist] ask for it. *)
Definition list_children (prefix : string) : ListObjectsV2Command :=
  {| list_Prefix := prefix; list_Delimiter := Some "/";
     list_MaxKeys := None; list_ContinuationToken := None |}.

(** ** The adapter ([useS3System.js]) *)

Definition defaultFolders : list string :=
  ["Health records";
   "Contractual agreements";
   "Bills & Receipts";
   "Financial documents";
   "Care payments";
   "Advance care planning";
   "Legal documents"].

Record FolderEntry : Type := {
  folder_name : string;
  folder_path : string;
  folder_url : string
}.

Record ObjectEntry : Type := {
  object_name : string;
  object_lastModified : N;
  object_size : N;
  object_path : string;
  object_url : string
}.

Record Listing : Type := {
  folders : list FolderEntry;
  objects : list ObjectEntry
}.

Section Adapter.
Context {cfg : Config}.

(** [new Set(existingFolders.CommonPrefixes?.map((cp) =>
    cp.Prefix.replace(prefix, "").replace("/", "")))] *)
Definition existingFolderNames (prefix : string) (existingFolders : ListObjectsV2Output)
    : gset string :=
  match CommonPrefixes existingFolders with
  | Some cps =>
      list_to_set
        ((fun cp => Js.replace (Js.replace cp prefix "") "/" "") <$> cps)
  | None => ∅
  end.

Definition ensureDefaultFoldersExist (prefix : string) : M unit :=
  let* existingFolders :=
    send_list {| list_Prefix := prefix; list_Delimiter := Some "/";
                 list_MaxKeys := None; list_ContinuationToken := None |} in
  let existingFolderNames := existingFolderNames prefix existingFolders in
  for_of defaultFolders (fun folder =>
    if decide (folder ∈ existingFolderNames) then ret tt
    else send_put {| put_Key := prefix +:+ folder +:+ "/"; put_Body := None |}).

(** What [listContents] makes of the response [data]. *)
Definition listContents_view (prefix : string) (data : ListObjectsV2Output) : Listing :=
  let filteredContents :=
    match Contents data with
    | Some cs =>
        List.filter
          (fun o => negb ((Size o =? 0)%N && Js.endsWith (Key o) "/")) cs
    | None => []
    end in
  {| folders :=
       match CommonPrefixes data with
       | Some cps =>
           (fun Prefix =>
              {| folder_name := Js.slice (Js.length prefix) Prefix;
                 folder_path := Prefix;
                 folder_url := "/?prefix=" +:+ Prefix |})
           <$> List.filter (fun Prefix => negb (excludeRegex_test Prefix)) cps
       | None => []
       end;
     objects :=
       (fun o =>
          {| object_name := Js.slice (Js.length prefix) (Key o);
             object_lastModified := LastModified o;
             object_size := Size o;
             object_path := Key o;
             object_url :=
               "https://" +:+ bucketName +:+ ".s3.amazonaws.com/"
               +:+ Js.encodeURIComponent (Key o) |})
       <$> List.filter (fun o => negb (excludeRegex_test (Key o))) filteredContents |}.

Definition listContents (prefix : string) : M Listing :=
  let* data :=
    send_list {| list_Prefix := prefix; list_Delimiter := Some "/";
                 list_MaxKeys := None; list_ContinuationToken := None |} in
  ret (listContents_view prefix data).

Definition createFolder (folderName currentPrefix : string) : M unit :=
  if negb (isValidFolderName folderName)
  then throw (Error "Invalid folder name!")
  else
    let fullPath := currentPrefix +:+ Js.trim folderName +:+ "/" in
    try_catch
      (send_put {| put_Key := fullPath; put_Body := None |})
      (fun error => throw error).

(** The [do ... while (continuationToken)] loop of [copyFolderContents],
    entered with the token of the previous round. *)
Fixpoint copyFolderContents_loop (fuel : nat) (sourcePrefix destinationPrefix : string)
    (continuationToken : option ContinuationToken) : M unit :=
  match fuel with
  | O => out_of_fuel
  | S fuel' =>
      let* listedObjects :=
        send_list {| list_Prefix := sourcePrefix; list_Delimiter := None;
                     list_MaxKeys := None;
                     list_ContinuationToken := continuationToken |} in
      let* contents :=
        defined (Contents listedObjects) "listedObjects.Contents is not iterable" in
      for_of contents (fun object =>
        let newObjectKey := Js.replace (Key object) sourcePrefix destinationPrefix in
        send_copy {| copy_CopySource := bucketName +:+ "/" +:+ Key object;
                     copy_Key := newObjectKey |}) ;;;
      match NextContinuationToken listedObjects with
      | Some t => copyFolderContents_loop fuel' sourcePrefix destinationPrefix (Some t)
      | None => ret tt
      end
  end.

Definition copyFolderContents (fuel : nat) (sourcePrefix destinationPrefix : string) : M unit :=
  copyFolderContents_loop fuel sourcePrefix destinationPrefix None.

Definition copyFileOrFolders (fuel : nat) (sourceKey destinationKey : string) : M unit :=
  if Js.endsWith sourceKey "/"
  then copyFolderContents fuel sourceKey destinationKey
  else send_copy {| copy_CopySource := bucketName +:+ "/" +:+ sourceKey;
                    copy_Key := destinationKey |}.

Fixpoint deleteFolderAndContents (fuel : nat) (prefix : string) : M unit :=
  match fuel with
  | O => out_of_fuel
  | S fuel' =>
      let* listedObjects :=
        send_list {| list_Prefix := prefix; list_Delimiter := None;
                     list_MaxKeys := None; list_ContinuationToken := None |} in
      let* contents :=
        defined (Contents listedObjects)
          "Cannot read properties of undefined (reading 'length')" in
      if length contents =? 0 then ret tt
      else
        send_delete {| delete_Objects := Key <$> contents |} ;;;
        if IsTruncated listedObjects
        then deleteFolderAndContents fuel' prefix
        else ret tt
  end.

Definition checkIfFileExists (key : string) : M unit :=
  let* checkExistence :=
    send_list {| list_Prefix := key; list_Delimiter := None;
                 list_MaxKeys := Some 1; list_ContinuationToken := None |} in
  if match Contents checkExistence with
     | Some cs => 0 <? length cs
     | None => false
     end
  then throw (Error "The destination file or folder already exists.")
  else ret tt.

Definition renameFile (fuel : nat) (oldKey newKey : string) (isFolder : bool)
    (currentPrefix : string) : M unit :=
  if negb (Js.truthy oldKey) || negb (Js.truthy newKey)
  then throw (Error "New filename must be provided")
  else if String.eqb oldKey newKey then ret tt
  else
    let* oldKey :=
      if isFolder then
        if negb (isValidFolderName newKey)
        then throw (Error "Invalid folder name")
        else
          let oldKey := currentPrefix +:+ oldKey +:+ "/" in
          let newKey := currentPrefix +:+ newKey +:+ "/" in
          checkIfFileExists newKey ;;;
          let* listedObjects :=
            send_list {| list_Prefix := oldKey; list_Delimiter := None;
                         list_MaxKeys := None; list_ContinuationToken := None |} in
          let* contents :=
            defined (Contents listedObjects) "listedObjects.Contents is not iterable" in
          for_of contents (fun obj =>
            let newObjectKey := Js.replace (Key obj) oldKey newKey in
            copyFileOrFolders fuel (Key obj) newObjectKey) ;;;
          ret oldKey
      else
        if negb (isValidFileName newKey)
        then throw (Error "Invalid file name")
        else
          let oldKey := currentPrefix +:+ oldKey in
          let newKey := currentPrefix +:+ newKey in
          checkIfFileExists newKey ;;;
          copyFileOrFolders fuel oldKey newKey ;;;
          ret oldKey in
    deleteFolderAndContents fuel oldKey.

End Adapter.

(** The key [renameFile] checks, copies to and never deletes. *)
Definition destinationKey (newKey : string) (isFolder : bool) (currentPrefix : string) : string :=
  if isFolder then currentPrefix +:+ newKey +:+ "/" else currentPrefix +:+ newKey.

(** ** Name grammars, in words

    The grammars the validators are compared with.  [documented_*] follow
    the wording of the specification; [accepted_folder_name] describes the
    names the folder pattern matches, character by character. *)

Definition is_control (c : ascii) : bool := (Js.code c <=? 31)%N.

(** One of [\ ? * : < > | /] or the double quote. *)
Definition is_forbidden (c : ascii) : bool :=
  Js.some (Ascii.eqb c) "\?*:<>|/" || Ascii.eqb c "034".

Definition is_letter (c : ascii) : bool :=
  Js.in_range 65 90 c || Js.in_range 97 122 c.

Definition is_some_and {A} (f : A -> bool) (o : option A) : bool :=
  match o with
  | Some a => f a
  | None => false
  end.

(** Documented folder names: non-empty, no control characters, none of
    the forbidden characters, no whitespace at either end and no period
    at the end. *)
Definition documented_folder_name (s : string) : bool :=
  Js.truthy s &&
  Js.every (fun c => negb (is_control c) && negb (is_forbidden c)) s &&
  negb (is_some_and Js.is_white_space (Js.first s)) &&
  negb (is_some_and Js.is_white_space (Js.last s)) &&
  negb (is_some_and (Ascii.eqb ".") (Js.last s)).

(** Documented file names: one or more word, space or hyphen characters
    ([stem]), a dot, exactly three letters ([ext]). *)
Definition documented_stem_char (c : ascii) : bool :=
  is_word c || Js.is_white_space c || Ascii.eqb c "-".
Definition documented_file_name (stem ext : string) : bool :=
  Js.truthy stem && Js.every documented_stem_char stem &&
  (Js.length ext =? 3) && Js.every is_letter ext.

(** First and last characters of an accepted folder name: no whitespace,
    control or forbidden character, and none of [^ ; .]. *)
Definition edge_char (c : ascii) : bool :=
  negb (Js.is_white_space c || is_control c || is_forbidden c ||
        Ascii.eqb c "^" || Ascii.eqb c ";" || Ascii.eqb c ".").

(** Any character of an accepted folder name: no control or forbidden
    character and no semicolon. *)
Definition inner_char (c : ascii) : bool :=
  negb (is_control c || is_forbidden c || Ascii.eqb c ";").

(** The names the folder pattern matches: two characters or more, the
    first and the last an [edge_char], all of them an [inner_char]. *)
Definition accepted_folder_name (t : string) : bool :=
  (2 <=? Js.length t) && Js.every inner_char t &&
  is_some_and edge_char (Js.first t) && is_some_and edge_char (Js.last t).

(** ** A deployment to evaluate on

    The bucket is called [documents], no exclusion pattern is set (the
    default pattern matches nothing) and pages hold 1000 entries. *)

Definition s3_config : Config :=
  {| bucketName := "documents";
     excludeRegex_test := fun _ => false;
     maxKeysCeiling := 1000 |}.

(** The world in which the bucket holds the given keys, each with the
    given size, and nothing has been sent yet. *)
Definition world_of (content : list (string * N)) : World :=
  {| bucket :=
       list_to_map
         ((fun kv => (fst kv, {| stored_size := snd kv; stored_at := 0 |}))
          <$> content);
     clock := 1;
     sent := [] |}.

(** The world after one round of [deleteFolderAndContents]: the listing
    and the batch deletion of its page. *)
Definition after_delete_round {cfg : Config} (prefix : string) (w : World) : World :=
  let keys := (take maxKeysCeiling (objects_under prefix (bucket w))).*1 in
  {| bucket := foldr delete (bucket w) keys;
     clock := clock w;
     sent := sent w ++ [SentList (list_all prefix);
                        SentDelete {| delete_Objects := keys |}] |}.

(** The number of pages that hold [n] entries. *)
Definition pages {cfg : Config} (n : nat) : nat :=
  (n + maxKeysCeiling - 1) / maxKeysCeiling.

(** Keys to fill a bucket with: [prefix0], [prefix1], ... *)
Fixpoint decimal (fuel n : nat) (acc : string) : string :=
  match fuel with
  | O => acc
  | S fuel' =>
      let acc' := String (ascii_of_nat (48 + n mod 10)) acc in
      if n / 10 =? 0 then acc' else decimal fuel' (n / 10) acc'
  end.

Definition numbered (prefix : string) (count : nat) : list (string * N) :=
  (fun i => (prefix +:+ decimal 10 i "", 1%N)) <$> seq 0 count.

(** The placeholder [ensureDefaultFoldersExist] puts for a folder. *)
Definition placeholder (prefix folder : string) : PutObjectCommand :=
  {| put_Key := prefix +:+ folder +:+ "/"; put_Body := None |}.

(** The world after the given commands were sent, one after the other. *)
Definition after_puts (cs : list PutObjectCommand) (w : World) : World :=
  foldl (fun w c => world (send_put c w)) w cs.

(** The canonical folders that the listing of [prefix] does not show. *)
Definition missing_folders {cfg : Config} (prefix : string) (w : World) : list string :=
  List.filter
    (fun folder =>
       negb (bool_decide
               (folder ∈ existingFolderNames prefix
                           (list_objects_v2 (list_children prefix) (bucket w)))))
    defaultFolders.


(** ** Further vocabulary for the properties of the adapter *)

(** A character of the stem of an accepted file name: a word character,
    a comma, whitespace or a hyphen. *)
Definition file_stem_char (c : ascii) : bool :=
  is_word c || Ascii.eqb c "," || Js.is_white_space c || Ascii.eqb c "-".

(** A character that may stand in an encoded URI component. *)
Definition uri_component_char (c : ascii) : bool :=
  Js.uri_unreserved c || Ascii.eqb c "%".

(** The number of placeholders put in a log of commands. *)
Definition put_calls (l : list Command) : nat :=
  length (List.filter (fun c => match c with SentPut _ => true | _ => false end) l).

(** A batch deletion names between one key and a page of keys, all of
    them under [prefix]; other commands are not constrained. *)
Definition batch_within {cfg : Config} (prefix : string) (c : Command) : Prop :=
  match c with
  | SentDelete d =>
      0 < length (delete_Objects d) <= maxKeysCeiling /\
      Forall (fun k => Js.startsWith k prefix = true) (delete_Objects d)
  | _ => True
  end.

(** Every key of [w] is still a key of [w'], and no placeholder was put
    and no batch deleted in between. *)
Definition only_copies (w w' : World) : Prop :=
  (forall k, is_Some (bucket w !! k) -> is_Some (bucket w' !! k)) /\
  delete_calls (sent w') = delete_calls (sent w) /\
  put_calls (sent w') = put_calls (sent w).


(** * Properties *)

(** ** Strings *)

Lemma append_empty_r (s : string) : s +:+ "" = s.
Proof. induction s as [|c s IH]; simpl; [reflexivity | now rewrite IH]. Qed.

Lemma append_assoc (a b c : string) : (a +:+ b) +:+ c = a +:+ b +:+ c.
Proof. induction a as [|x a IH]; simpl; [reflexivity | now rewrite IH]. Qed.

Lemma append_eq_empty (a b : string) : a +:+ b = "" -> a = "" /\ b = "".
Proof. destruct a; simpl; [auto | discriminate]. Qed.

Lemma ascii_eqb_true (a b : ascii) : Ascii.eqb a b = true <-> a = b.
Proof. apply Ascii.eqb_eq. Qed.

Lemma startsWith_spec (s p : string) :
  Js.startsWith s p = true <-> exists r, s = p +:+ r.
Proof.
  revert s. induction p as [|a p IH]; intros s.
  - split; [exists s; reflexivity | now destruct s].
  - destruct s as [|b s]; cbn [Js.startsWith].
    + split; [discriminate | intros [r Hr]; discriminate].
    + rewrite andb_true_iff, ascii_eqb_true, IH. split.
      * intros [-> [r ->]]. now exists r.
      * intros [r Hr]. injection Hr as -> ->. eauto.
Qed.

Lemma startsWith_append (p r : string) : Js.startsWith (p +:+ r) p = true.
Proof. apply startsWith_spec. now exists r. Qed.

Lemma slice_append (p r : string) : Js.slice (Js.length p) (p +:+ r) = r.
Proof. induction p as [|a p IH]; simpl; [now destruct r | exact IH]. Qed.

Lemma slice_to_append (p r : string) : Js.slice_to (Js.length p) (p +:+ r) = p.
Proof. induction p as [|a p IH]; simpl; [now destruct r | now rewrite IH]. Qed.

Lemma slice_to_slice (n : nat) (s : string) : Js.slice_to n s +:+ Js.slice n s = s.
Proof.
  revert s. induction n as [|n IH]; intros [|c s]; simpl; try reflexivity.
  now rewrite IH.
Qed.

Lemma indexOf_startsWith (s p : string) :
  Js.startsWith s p = true -> Js.indexOf s p = Some 0.
Proof. intros E. destruct s; cbn [Js.indexOf]; now rewrite E. Qed.

Lemma indexOf_append (p r : string) : Js.indexOf (p +:+ r) p = Some 0.
Proof. apply indexOf_startsWith, startsWith_append. Qed.

Lemma every_append (f : ascii -> bool) (a b : string) :
  Js.every f (a +:+ b) = Js.every f a && Js.every f b.
Proof.
  induction a as [|c a IH]; simpl; [reflexivity |].
  now rewrite IH, andb_assoc.
Qed.

Lemma some_append (f : ascii -> bool) (a b : string) :
  Js.some f (a +:+ b) = Js.some f a || Js.some f b.
Proof.
  induction a as [|c a IH]; simpl; [reflexivity |].
  now rewrite IH, orb_assoc.
Qed.

Lemma every_negb_some (f : ascii -> bool) (s : string) :
  Js.every (fun c => negb (f c)) s = negb (Js.some f s).
Proof.
  induction s as [|c s IH]; simpl; [reflexivity |].
  now rewrite IH, negb_orb.
Qed.

(** ** Patterns: the matcher decides the language *)

Lemma lang_eps_inv (s : string) : lang Eps s -> s = "".
Proof. now inversion 1. Qed.

Lemma lang_class_inv (negated : bool) (items : list class_item) (s : string) :
  lang (Class negated items) s ->
  exists c, s = String c "" /\ class_matches negated items c = true.
Proof. inversion 1; subst; eauto. Qed.

Lemma lang_seq_inv (r1 r2 : regex) (s : string) :
  lang (Seq r1 r2) s -> exists s1 s2, s = s1 +:+ s2 /\ lang r1 s1 /\ lang r2 s2.
Proof. inversion 1; subst; eauto. Qed.

Lemma lang_alt_inv (r1 r2 : regex) (s : string) :
  lang (Alt r1 r2) s -> lang r1 s \/ lang r2 s.
Proof. inversion 1; subst; auto. Qed.

Lemma lang_seq_cons (r1 r2 : regex) (c : ascii) (s1 s2 : string) :
  lang r1 (String c s1) -> lang r2 s2 -> lang (Seq r1 r2) (String c (s1 +:+ s2)).
Proof. intros H1 H2. apply (lang_seq _ _ _ _ H1 H2). Qed.

Lemma nullable_lang (r : regex) : nullable r = true <-> lang r "".
Proof.
  induction r as [| |negated items|r1 IH1 r2 IH2|r1 IH1 r2 IH2|r IH];
    cbn [nullable].
  - split; [discriminate | inversion 1].
  - split; [constructor | reflexivity].
  - split; [discriminate | inversion 1].
  - rewrite andb_true_iff, IH1, IH2. split.
    + intros [H1 H2]. apply (lang_seq _ _ _ _ H1 H2).
    + intros (s1 & s2 & E & H1 & H2)%lang_seq_inv.
      symmetry in E. apply append_eq_empty in E as [-> ->]. auto.
  - rewrite orb_true_iff, IH1, IH2. split.
    + intros [?|?]; [now apply lang_alt_l | now apply lang_alt_r].
    + apply lang_alt_inv.
  - split; [constructor | reflexivity].
Qed.

Lemma lang_star_cons_inv (r : regex) (c : ascii) (s : string) :
  lang (Star r) (String c s) ->
  exists s1 s2, s = s1 +:+ s2 /\ lang r (String c s1) /\ lang (Star r) s2.
Proof.
  intros H. remember (Star r) as q eqn:Eq. remember (String c s) as t eqn:Et.
  revert Eq Et.
  induction H as [| | | | | |r' s1 s2 H1 _ H2 IH2]; try discriminate.
  intros Eq Et. injection Eq as ->.
  destruct s1 as [|a s1]; simpl in Et.
  - now apply IH2.
  - injection Et as -> <-. eauto.
Qed.

Lemma lang_seq_cons_inv (r1 r2 : regex) (c : ascii) (s : string) :
  lang (Seq r1 r2) (String c s) ->
  (exists s1 s2, s = s1 +:+ s2 /\ lang r1 (String c s1) /\ lang r2 s2) \/
  (lang r1 "" /\ lang r2 (String c s)).
Proof.
  intros (s1 & s2 & E & H1 & H2)%lang_seq_inv.
  destruct s1 as [|a s1]; simpl in E.
  - right. now subst s2.
  - injection E as -> ->. left. eauto.
Qed.

Lemma deriv_lang (c : ascii) (r : regex) (s : string) :
  lang (deriv c r) s <-> lang r (String c s).
Proof.
  revert s.
  induction r as [| |negated items|r1 IH1 r2 IH2|r1 IH1 r2 IH2|r IH];
    intros s; cbn [deriv].
  - split; inversion 1.
  - split; inversion 1.
  - destruct (class_matches negated items c) eqn:E; split.
    + intros ->%lang_eps_inv. now constructor.
    + intros (d & [= -> ->] & _)%lang_class_inv. constructor.
    + inversion 1.
    + intros (d & [= -> ->] & E')%lang_class_inv. congruence.
  - assert (Hseq : lang (Seq (deriv c r1) r2) s ->
                   lang (Seq r1 r2) (String c s)).
    { intros (s1 & s2 & -> & H1 & H2)%lang_seq_inv.
      apply IH1 in H1. now apply lang_seq_cons. }
    destruct (nullable r1) eqn:N.
    + split.
      * intros [Hl|Hr]%lang_alt_inv; [now apply Hseq |].
        apply (lang_seq r1 r2 "" (String c s));
          [now apply nullable_lang | now apply IH2].
      * intros [(s1 & s2 & -> & H1 & H2)|[_ H2]]%lang_seq_cons_inv.
        -- apply lang_alt_l. constructor; [now apply IH1 | assumption].
        -- apply lang_alt_r. now apply IH2.
    + split; [exact Hseq |].
      intros [(s1 & s2 & -> & H1 & H2)|[Hn _]]%lang_seq_cons_inv.
      * constructor; [now apply IH1 | assumption].
      * apply nullable_lang in Hn. congruence.
  - split.
    + intros [?|?]%lang_alt_inv; [apply lang_alt_l | apply lang_alt_r];
        [now apply IH1 | now apply IH2].
    + intros [?|?]%lang_alt_inv; [apply lang_alt_l | apply lang_alt_r];
        [now apply IH1 | now apply IH2].
  - split.
    + intros (s1 & s2 & -> & H1 & H2)%lang_seq_inv.
      apply IH in H1. apply (lang_star_cons r (String c s1) s2 H1 H2).
    + intros (s1 & s2 & -> & H1 & H2)%lang_star_cons_inv.
      constructor; [now apply IH | assumption].
Qed.

Lemma test_lang (r : regex) (s : string) : test r s = true <-> lang r s.
Proof.
  revert r. induction s as [|c s IH]; intros r; simpl.
  - apply nullable_lang.
  - rewrite IH. apply deriv_lang.
Qed.

(** ** Character classes of the two patterns *)

Ltac each_ascii c :=
  destruct c as [[] [] [] [] [] [] [] []]; vm_compute; reflexivity.

Lemma edgeClass_spec (c : ascii) : class_matches true edgeClass c = edge_char c.
Proof. each_ascii c. Qed.

Lemma innerClass_spec (c : ascii) : class_matches true innerClass c = inner_char c.
Proof. each_ascii c. Qed.

Lemma edge_char_inner (c : ascii) : edge_char c = true -> inner_char c = true.
Proof. destruct c as [[] [] [] [] [] [] [] []]; vm_compute; auto. Qed.

Lemma fileNameClass_spec (c : ascii) :
  class_matches false fileNameClass c = documented_stem_char c || Ascii.eqb c ",".
Proof. each_ascii c. Qed.

Lemma letterClass_spec (c : ascii) : class_matches false letterClass c = is_letter c.
Proof. each_ascii c. Qed.

Lemma letter_not_space (c : ascii) : is_letter c = true -> Js.is_white_space c = false.
Proof. destruct c as [[] [] [] [] [] [] [] []]; vm_compute; auto. Qed.

(** ** Languages of repeated classes *)

Lemma lang_star_class (negated : bool) (items : list class_item) (s : string) :
  lang (Star (Class negated items)) s <->
  Js.every (class_matches negated items) s = true.
Proof.
  split.
  - induction s as [|c s IH]; [reflexivity |].
    intros (s1 & s2 & -> & H1 & H2)%lang_star_cons_inv.
    apply lang_class_inv in H1 as (d & [= -> ->] & E).
    cbn [Js.every]. rewrite E. now apply IH.
  - induction s as [|c s IH]; [constructor |].
    cbn [Js.every]. intros [E Hs]%andb_true_iff.
    apply (lang_star_cons _ (String c "") s); [now constructor | now apply IH].
Qed.

Lemma lang_plus_class (negated : bool) (items : list class_item) (s : string) :
  lang (Plus (Class negated items)) s <->
  Js.truthy s = true /\ Js.every (class_matches negated items) s = true.
Proof.
  unfold Plus. split.
  - intros (s1 & s2 & -> & H1 & H2)%lang_seq_inv.
    apply lang_class_inv in H1 as (d & -> & E).
    apply lang_star_class in H2. cbn. now rewrite E.
  - destruct s as [|c s]; [intros [[=] _] |].
    cbn [Js.every]. intros [_ [E Hs]%andb_true_iff].
    apply (lang_seq _ _ (String c "") s);
      [now constructor | now apply lang_star_class].
Qed.

Lemma lang_times_class (negated : bool) (items : list class_item) (n : nat) (s : string) :
  lang (Times n (Class negated items)) s <->
  Js.length s = n /\ Js.every (class_matches negated items) s = true.
Proof.
  revert s. induction n as [|n IH]; intros s; cbn [Times].
  - split.
    + now intros ->%lang_eps_inv.
    + intros [E _]. destruct s; [constructor | discriminate].
  - split.
    + intros (s1 & s2 & -> & H1 & H2)%lang_seq_inv.
      apply lang_class_inv in H1 as (d & -> & E).
      apply IH in H2 as [<- H2]. cbn. now rewrite E.
    + destruct s as [|c s]; [intros [[=] _] |].
      cbn [Js.every]. intros [[= E] [Ec Hs]%andb_true_iff].
      apply (lang_seq _ _ (String c "") s); [now constructor | now apply IH].
Qed.

(** ** First and last characters, trimming *)

Lemma every_ext (f g : ascii -> bool) (s : string) :
  (forall c, f c = g c) -> Js.every f s = Js.every g s.
Proof. intros E. induction s as [|c s IH]; cbn; [reflexivity | now rewrite E, IH]. Qed.

Lemma every_impl (f g : ascii -> bool) (s : string) :
  (forall c, f c = true -> g c = true) ->
  Js.every f s = true -> Js.every g s = true.
Proof.
  intros I. induction s as [|c s IH]; cbn [Js.every]; [reflexivity |].
  intros [Hc Hs]%andb_true_iff. rewrite (I c Hc). now apply IH.
Qed.

Lemma string_snoc (s : string) :
  s <> "" -> exists m z, s = m +:+ String z "".
Proof.
  induction s as [|c s IH]; [congruence | intros _].
  destruct s as [|d s].
  - now exists "", c.
  - destruct IH as (m & z & E); [discriminate |].
    exists (String c m), z. simpl. now rewrite E.
Qed.

Lemma last_append (a p : string) : p <> "" -> Js.last (a +:+ p) = Js.last p.
Proof.
  intros Hp. induction a as [|c a IH]; [reflexivity |].
  simpl. rewrite IH. destruct (a +:+ p) eqn:E; [|reflexivity].
  apply append_eq_empty in E as [_ ->]. congruence.
Qed.

Lemma last_snoc (m : string) (z : ascii) : Js.last (m +:+ String z "") = Some z.
Proof. now rewrite last_append. Qed.

Lemma last_every (f : ascii -> bool) (p : string) :
  p <> "" -> Js.every f p = true -> is_some_and f (Js.last p) = true.
Proof.
  intros (m & z & ->)%string_snoc. rewrite last_snoc, every_append.
  cbn. intros [_ Hz]%andb_true_iff. now rewrite andb_true_r in Hz.
Qed.

Lemma length_append (a b : string) :
  Js.length (a +:+ b) = Js.length a + Js.length b.
Proof.
  unfold Js.length. induction a as [|c a IH]; simpl; [reflexivity | now rewrite IH].
Qed.

Lemma truthy_length (s : string) : Js.truthy s = true <-> 0 < Js.length s.
Proof. destruct s; cbn; split; (discriminate || lia || reflexivity). Qed.

Lemma truthy_nonempty (s : string) : Js.truthy s = true <-> s <> "".
Proof. destruct s; cbn; split; (congruence || reflexivity). Qed.

Lemma trimEnd_cons (c : ascii) (s : string) :
  Js.trimEnd (String c s) =
  match Js.trimEnd s with
  | EmptyString => if Js.is_white_space c then "" else String c ""
  | t => String c t
  end.
Proof. reflexivity. Qed.

Lemma trimEnd_keeps (s : string) :
  is_some_and (fun c => negb (Js.is_white_space c)) (Js.last s) = true ->
  Js.trimEnd s = s.
Proof.
  induction s as [|c s IH]; [reflexivity |].
  destruct s as [|d s].
  - cbn. now destruct (Js.is_white_space c).
  - intros Hl. rewrite trimEnd_cons, IH by exact Hl. reflexivity.
Qed.

Lemma trimStart_some (f : ascii -> bool) (s : string) :
  (forall c, f c = true -> Js.is_white_space c = false) ->
  Js.some f (Js.trimStart s) = Js.some f s.
Proof.
  intros Hf. induction s as [|c s IH]; [reflexivity |].
  cbn [Js.trimStart Js.some].
  destruct (Js.is_white_space c) eqn:W; [|reflexivity].
  rewrite IH. destruct (f c) eqn:F; [|reflexivity].
  apply Hf in F. congruence.
Qed.

Lemma trimEnd_some (f : ascii -> bool) (s : string) :
  (forall c, f c = true -> Js.is_white_space c = false) ->
  Js.some f (Js.trimEnd s) = Js.some f s.
Proof.
  intros Hf. induction s as [|c s IH]; [reflexivity |].
  rewrite trimEnd_cons. cbn [Js.some]. rewrite <- IH.
  destruct (Js.trimEnd s) as [|d t] eqn:E; [|reflexivity].
  destruct (Js.is_white_space c) eqn:W; [|reflexivity].
  cbn. destruct (f c) eqn:F; [|reflexivity].
  apply Hf in F. congruence.
Qed.

Lemma trim_some (f : ascii -> bool) (s : string) :
  (forall c, f c = true -> Js.is_white_space c = false) ->
  Js.some f (Js.trim s) = Js.some f s.
Proof.
  intros Hf. unfold Js.trim. now rewrite trimEnd_some, trimStart_some.
Qed.

(** Leading whitespace goes, the rest of a stem with a visible character
    stays in front of what follows. *)
Lemma trimStart_append (stem rest : string) :
  Js.some (fun c => negb (Js.is_white_space c)) stem = true ->
  Js.trimStart (stem +:+ rest) = Js.trimStart stem +:+ rest /\
  Js.truthy (Js.trimStart stem) = true.
Proof.
  induction stem as [|c stem IH]; [discriminate |].
  cbn [Js.some]. simpl. destruct (Js.is_white_space c); cbn [negb orb].
  - exact IH.
  - intros _. split; reflexivity.
Qed.

Lemma trimStart_every (f : ascii -> bool) (s : string) :
  Js.every f s = true -> Js.every f (Js.trimStart s) = true.
Proof.
  induction s as [|c s IH]; [reflexivity |].
  cbn [Js.trimStart]. destruct (Js.is_white_space c); [|tauto].
  cbn [Js.every]. intros [_ Hs]%andb_true_iff. now apply IH.
Qed.

(** ** What the two patterns match *)

Lemma folderNameRegex_spec (t : string) :
  test folderNameRegex t = accepted_folder_name t.
Proof.
  apply Bool.eq_iff_eq_true. rewrite test_lang. unfold folderNameRegex. split.
  - intros (s1 & s' & -> & H1 & H')%lang_seq_inv.
    apply lang_seq_inv in H' as (m & p & -> & Hm & Hp).
    apply lang_class_inv in H1 as (a & -> & Ea).
    apply lang_star_class in Hm. apply lang_plus_class in Hp as [Tp Hp].
    rewrite edgeClass_spec in Ea.
    rewrite (every_ext _ inner_char) in Hm by apply innerClass_spec.
    rewrite (every_ext _ edge_char) in Hp by apply edgeClass_spec.
    apply truthy_nonempty in Tp as Np. apply truthy_length in Tp.
    unfold accepted_folder_name. simpl String.append.
    change (Js.last (String a (m +:+ p))) with (Js.last (String a "" +:+ m +:+ p)).
    rewrite <- append_assoc, last_append by assumption.
    rewrite (last_every _ _ Np Hp).
    cbn [Js.first is_some_and Js.every Js.length String.length].
    rewrite Ea, (edge_char_inner _ Ea), every_append, Hm.
    rewrite (every_impl _ _ _ edge_char_inner Hp).
    fold (Js.length (m +:+ p)). rewrite length_append.
    rewrite !andb_true_r. apply Nat.leb_le. lia.
  - unfold accepted_folder_name.
    intros [[[L I]%andb_true_iff F]%andb_true_iff Z]%andb_true_iff.
    destruct t as [|a t]; [discriminate |]. cbn in F.
    destruct (string_snoc t) as (m & z & ->).
    { destruct t; [discriminate | discriminate]. }
    change (Js.last (String a (m +:+ String z "")))
      with (Js.last (String a m +:+ String z "")) in Z.
    rewrite last_snoc in Z. cbn in Z.
    cbn [Js.every] in I. apply andb_true_iff in I as [_ I].
    rewrite every_append in I. apply andb_true_iff in I as [I _].
    apply (lang_seq _ _ (String a "") (m +:+ String z "")).
    + constructor. now rewrite edgeClass_spec.
    + constructor.
      * apply lang_star_class.
        now rewrite (every_ext _ inner_char) by apply innerClass_spec.
      * apply lang_plus_class. split; [reflexivity |].
        cbn [Js.every]. now rewrite edgeClass_spec, Z.
Qed.

(** The folder validator accepts the names whose trimmed form is an
    [accepted_folder_name]. *)
Lemma isValidFolderName_spec (folderName : string) :
  isValidFolderName folderName = accepted_folder_name (Js.trim folderName).
Proof.
  unfold isValidFolderName. rewrite folderNameRegex_spec.
  destruct folderName; [reflexivity | reflexivity].
Qed.

(** The validators on the names of the specification. *)
Example isValidFileName_examples :
  isValidFileName "report.pdf" = true /\
  isValidFileName "my report-2,final.PDF" = true /\
  isValidFileName "report" = false /\
  isValidFileName "a/b.txt" = false /\
  isValidFileName "report.jpeg" = false /\
  isValidFileName "" = false.
Proof. repeat split; reflexivity. Qed.

Example isValidFolderName_examples :
  forallb isValidFolderName defaultFolders = true /\
  forallb (fun name => negb (isValidFolderName name))
    ["a/b"; "a\b"; "a:b"; "a*b"; "a?b"; "a<b"; "a>b"; "a|b"; "a;b";
     String "a" (String "034" "b"); "name."; ".name"; "a"; ""; "  "] = true /\
  isValidFolderName "  Legal documents  " = true.
Proof. repeat split; reflexivity. Qed.

Example replace_examples :
  Js.replace "a/sub/y.txt" "a/" "b/" = "b/sub/y.txt" /\
  Js.replace "a/x.txt" "a/" "b$$/" = "b$/x.txt" /\
  Js.replace "a/x.txt" "a/" "$&b/" = "a/b/x.txt" /\
  Js.replace "root/Health records/" "root/" "" = "Health records/" /\
  Js.replace "Health records/" "/" "" = "Health records" /\
  Js.replace "x/a/" "a/" "b/" = "x/b/".
Proof. repeat split; reflexivity. Qed.

Example trim_examples :
  Js.trim "  a b  " = "a b" /\ Js.trim " " = "" /\ Js.trim "ab" = "ab".
Proof. repeat split; reflexivity. Qed.

Example encodeURIComponent_example :
  Js.encodeURIComponent "my folder/a&b.txt" = "my%20folder%2Fa%26b.txt".
Proof. reflexivity. Qed.

(** ** File names (C9) *)

Lemma documented_stem_char_class (c : ascii) :
  documented_stem_char c = true -> class_matches false fileNameClass c = true.
Proof. intros E. now rewrite fileNameClass_spec, E. Qed.

Lemma last_letters (x : string) (ext : string) :
  Js.length ext = 3 -> Js.every is_letter ext = true ->
  is_some_and (fun c => negb (Js.is_white_space c)) (Js.last (x +:+ ext)) = true.
Proof.
  intros L E. assert (N : ext <> "") by (destruct ext; [discriminate | congruence]).
  rewrite last_append by exact N.
  apply last_every; [exact N |].
  apply (every_impl is_letter); [|exact E].
  intros c Hc. now rewrite (letter_not_space c Hc).
Qed.

(** C9, as stated, fails: a blank followed by [.pdf] has the documented
    shape (one space, a dot, three letters), and the validator rejects it,
    because the name is trimmed before it is matched. *)
Lemma isValidFileName_blank_stem_rejected :
  documented_file_name " " "pdf" = true /\
  isValidFileName (" " +:+ "." +:+ "pdf") = false.
Proof. split; reflexivity. Qed.

(** C9, amended: the file-name validator accepts every name made of one or
    more word, space or hyphen characters of which at least one is not
    whitespace, then a dot, then exactly three letters; it rejects
    [report] (no extension) and [a/b.txt] (a slash). *)
Theorem isValidFileName_documented (stem ext : string) :
  documented_file_name stem ext = true ->
  Js.some (fun c => negb (Js.is_white_space c)) stem = true ->
  isValidFileName (stem +:+ "." +:+ ext) = true /\
  isValidFileName "report" = false /\
  isValidFileName "a/b.txt" = false.
Proof.
  unfold documented_file_name.
  intros [[[T S]%andb_true_iff L%Nat.eqb_eq]%andb_true_iff E]%andb_true_iff V.
  split; [|split; reflexivity].
  unfold isValidFileName. apply andb_true_iff. split.
  { destruct stem; [discriminate | reflexivity]. }
  unfold Js.trim.
  destruct (trimStart_append stem ("." +:+ ext) V) as [-> Tt].
  rewrite trimEnd_keeps.
  2:{ rewrite <- append_assoc. now apply last_letters. }
  apply test_lang. unfold fileNameRegex. constructor.
  - apply lang_plus_class. split; [exact Tt |].
    apply (every_impl documented_stem_char); [apply documented_stem_char_class |].
    now apply trimStart_every.
  - apply (lang_seq _ _ "." ext).
    + now constructor.
    + apply lang_times_class. split; [exact L |].
      now rewrite (every_ext _ is_letter) by apply letterClass_spec.
Qed.

Lemma isValidFileName_documented_witness :
  isValidFileName ("report" +:+ "." +:+ "pdf") = true /\
  isValidFileName "report" = false /\
  isValidFileName "a/b.txt" = false.
Proof. apply (isValidFileName_documented "report" "pdf"); reflexivity. Defined.

(** ** Folder names (C6, C10) *)

Lemma some_every_false (f g : ascii -> bool) (s : string) :
  (forall c, f c = true -> g c = false) ->
  Js.some f s = true -> Js.every g s = false.
Proof.
  intros I. induction s as [|c s IH]; [discriminate |].
  cbn [Js.some Js.every]. intros [Hc|Hs]%orb_true_iff.
  - now rewrite (I c Hc).
  - rewrite (IH Hs). apply andb_false_r.
Qed.

Lemma semicolon_not_space (c : ascii) :
  Ascii.eqb ";" c = true -> Js.is_white_space c = false.
Proof. now intros <-%ascii_eqb_true. Qed.

Lemma semicolon_not_inner (c : ascii) :
  Ascii.eqb ";" c = true -> inner_char c = false.
Proof. now intros <-%ascii_eqb_true. Qed.

(** What the validator accepts satisfies the documented grammar once
    trimmed. *)
Lemma accepted_folder_name_documented (t : string) :
  accepted_folder_name t = true -> documented_folder_name t = true.
Proof.
  unfold accepted_folder_name, documented_folder_name.
  intros [[[L I]%andb_true_iff F]%andb_true_iff Z]%andb_true_iff.
  destruct t as [|a t]; [discriminate |].
  assert (Hin : forall c, inner_char c = true ->
                  negb (is_control c) && negb (is_forbidden c) = true).
  { intros c. destruct c as [[] [] [] [] [] [] [] []]; vm_compute; auto. }
  assert (Hed : forall c, edge_char c = true ->
                  Js.is_white_space c = false /\ Ascii.eqb "." c = false).
  { intros c. destruct c as [[] [] [] [] [] [] [] []]; vm_compute; auto. }
  rewrite (every_impl _ _ _ Hin I).
  cbn [Js.first is_some_and] in F |- *.
  destruct (Hed a F) as [-> _].
  destruct (Js.last (String a t)) as [z|]; [|discriminate].
  cbn [is_some_and] in Z |- *. destruct (Hed z Z) as [-> ->]. reflexivity.
Qed.

Lemma forbidden_not_space (c : ascii) :
  is_forbidden c = true -> Js.is_white_space c = false.
Proof. destruct c as [[] [] [] [] [] [] [] []]; vm_compute; auto. Qed.

Lemma forbidden_not_inner (c : ascii) :
  is_forbidden c = true -> inner_char c = false.
Proof. destruct c as [[] [] [] [] [] [] [] []]; vm_compute; auto. Qed.

(** Names with one of the forbidden characters anywhere, or with a period
    at the end, are refused. *)
Lemma isValidFolderName_rejects_forbidden (folderName : string) :
  Js.some is_forbidden folderName = true \/
  Js.last (Js.trim folderName) = Some "."%char ->
  isValidFolderName folderName = false.
Proof.
  rewrite isValidFolderName_spec. unfold accepted_folder_name.
  intros [S|Z].
  - rewrite <- (trim_some _ _ forbidden_not_space) in S.
    rewrite (some_every_false _ _ _ forbidden_not_inner S).
    now rewrite andb_false_r.
  - rewrite Z. cbn. now rewrite andb_false_r.
Qed.

(** [createFolder] throws on the names the validator rejects and puts an
    empty object at [currentPrefix + trim(folderName) + "/"] otherwise. *)
Lemma createFolder_run (folderName currentPrefix : string) (w : World) :
  createFolder folderName currentPrefix w =
  if isValidFolderName folderName
  then (Returned tt,
        {| bucket :=
             <[currentPrefix +:+ Js.trim folderName +:+ "/" :=
                 {| stored_size := 0; stored_at := clock w |}]> (bucket w);
           clock := N.succ (clock w);
           sent := sent w ++
                   [SentPut {| put_Key := currentPrefix +:+ Js.trim folderName +:+ "/";
                               put_Body := None |}] |})
  else (Thrown (Error "Invalid folder name!"), w).
Proof.
  unfold createFolder. destruct (isValidFolderName folderName); reflexivity.
Qed.

(** C10, amended: the folder validator is stricter than the documented
    grammar.  It returns false for every name whose trimmed form is a
    single character, for every name that contains a semicolon and for
    every name whose trimmed form begins or ends with a caret, and
    [createFolder] throws for them without sending anything; what it does
    accept satisfies the documented grammar once trimmed. *)
Theorem isValidFolderName_stricter (folderName currentPrefix : string) (w : World) :
  Js.length (Js.trim folderName) = 1 \/
  Js.some (Ascii.eqb ";") folderName = true \/
  Js.first (Js.trim folderName) = Some "^"%char \/
  Js.last (Js.trim folderName) = Some "^"%char ->
  isValidFolderName folderName = false /\
  createFolder folderName currentPrefix w = (Thrown (Error "Invalid folder name!"), w) /\
  (forall name, isValidFolderName name = true ->
                documented_folder_name (Js.trim name) = true).
Proof.
  intros Hyp.
  assert (V : isValidFolderName folderName = false).
  { rewrite isValidFolderName_spec. unfold accepted_folder_name.
    destruct Hyp as [L|[S|[F|Z]]].
    - rewrite L. reflexivity.
    - rewrite <- (trim_some _ _ semicolon_not_space) in S.
      rewrite (some_every_false _ _ _ semicolon_not_inner S).
      now rewrite andb_false_r.
    - rewrite F. cbn. now rewrite andb_false_r.
    - rewrite Z. cbn. now rewrite andb_false_r. }
  split; [exact V |]. split.
  - now rewrite createFolder_run, V.
  - intros name. rewrite isValidFolderName_spec.
    apply accepted_folder_name_documented.
Qed.

(** C6, amended: [createFolder] fails with the validation error exactly
    when the trimmed name is not an [accepted_folder_name] (two characters
    or more; no control character, semicolon or forbidden character; first
    and last character not whitespace, caret or period); every other name
    is accepted and results in a zero-byte object at
    [currentPrefix + trim(folderName) + "/"], and so is [Legal documents]. *)
Theorem createFolder_accepts_exactly (folderName currentPrefix : string) (w : World) :
  let fullPath := currentPrefix +:+ Js.trim folderName +:+ "/" in
  (outcome (createFolder folderName currentPrefix w) = Thrown (Error "Invalid folder name!")
   <-> accepted_folder_name (Js.trim folderName) = false) /\
  (accepted_folder_name (Js.trim folderName) = false ->
   world (createFolder folderName currentPrefix w) = w) /\
  (accepted_folder_name (Js.trim folderName) = true ->
   outcome (createFolder folderName currentPrefix w) = Returned tt /\
   bucket (world (createFolder folderName currentPrefix w)) =
     <[fullPath := {| stored_size := 0; stored_at := clock w |}]> (bucket w)) /\
  accepted_folder_name (Js.trim "Legal documents") = true.
Proof.
  intros fullPath. rewrite createFolder_run, isValidFolderName_spec.
  destruct (accepted_folder_name (Js.trim folderName)); cbn.
  - repeat split; (discriminate || reflexivity).
  - repeat split; (discriminate || reflexivity).
Qed.

(** C10, as stated, fails: a caret inside the name is accepted. *)
Lemma isValidFolderName_inner_caret_accepted :
  Js.some (Ascii.eqb "^") "a^b" = true /\
  isValidFolderName "a^b" = true /\
  outcome (createFolder "a^b" "" (world_of [])) = Returned tt.
Proof. repeat split; reflexivity. Qed.

Lemma isValidFolderName_stricter_witness :
  isValidFolderName "a" = false /\
  createFolder "a" "" (world_of [])
    = (Thrown (Error "Invalid folder name!"), world_of []) /\
  (forall name, isValidFolderName name = true ->
                documented_folder_name (Js.trim name) = true).
Proof.
  apply (isValidFolderName_stricter "a" "" (world_of [])).
  left. reflexivity.
Defined.

(** C6, as stated, fails in both directions: [a] satisfies the documented
    grammar and is refused; a name with a blank in front does not satisfy
    it and is accepted, because the name is trimmed before it is matched. *)
Lemma createFolder_not_documented_grammar :
  (documented_folder_name "a" = true /\
   outcome (createFolder "a" "" (world_of []))
     = Thrown (Error "Invalid folder name!")) /\
  (documented_folder_name " ab" = false /\
   outcome (createFolder " ab" "" (world_of [])) = Returned tt).
Proof. repeat split; reflexivity. Qed.

(** ** The object store: listings *)

Lemma elem_of_List_filter {A} (f : A -> bool) (l : list A) (x : A) :
  x ∈ List.filter f l <-> f x = true /\ x ∈ l.
Proof. rewrite !list_elem_of_In, filter_In. tauto. Qed.

Lemma List_filter_none {A} (f : A -> bool) (l : list A) :
  (forall x, x ∈ l -> f x = false) -> List.filter f l = [].
Proof.
  induction l as [|x l IH]; [reflexivity |]. intros Hf. simpl.
  rewrite (Hf x) by left. apply IH. intros y Hy. apply Hf. now right.
Qed.

Lemma List_filter_true {A} (l : list A) : List.filter (fun _ => true) l = l.
Proof. induction l as [|x l IH]; simpl; [reflexivity | now rewrite IH]. Qed.

Lemma NoDup_List_filter {A} (f : A -> bool) (l : list A) :
  NoDup l -> NoDup (List.filter f l).
Proof.
  induction 1 as [|x l Hx Hl IH]; simpl; [constructor |].
  destruct (f x); [|exact IH].
  constructor; [|exact IH]. rewrite elem_of_List_filter. tauto.
Qed.

Lemma NoDup_fst_List_filter {A B} (f : A * B -> bool) (l : list (A * B)) :
  NoDup (l.*1) -> NoDup ((List.filter f l).*1).
Proof.
  induction l as [|x l IH]; simpl; [constructor |].
  intros [Hx Hl]%NoDup_cons. destruct (f x); [|now apply IH].
  simpl. apply NoDup_cons. split; [|now apply IH].
  intros (y & E & Hy)%list_elem_of_fmap. apply Hx.
  apply list_elem_of_fmap. exists y. split; [exact E |].
  apply elem_of_List_filter in Hy. tauto.
Qed.

Lemma roll_up_objects (seen : gset string) (l : list ObjectSummary) :
  roll_up seen (EObject <$> l) = EObject <$> l.
Proof. induction l as [|o l IH]; [reflexivity |]. rewrite fmap_cons. simpl. now rewrite IH. Qed.

Lemma omap_fmap_Some {A B C} (f : A -> B) (g : B -> option C) (h : A -> C) (l : list A) :
  (forall a, g (f a) = Some (h a)) -> omap g (f <$> l) = h <$> l.
Proof.
  intros E. induction l as [|a l IH]; [reflexivity |].
  rewrite !fmap_cons. cbn [omap list_omap]. now rewrite E, IH.
Qed.


Lemma if_any_Some {A} (l k : list A) : if_any l = Some k -> l = k /\ l <> [].
Proof. destruct l; simpl; [discriminate |]. intros [= <-]. split; congruence. Qed.

Global Instance summary_of_inj : Inj (=) (=) summary_of.
Proof.
  intros [k1 [s1 a1]] [k2 [s2 a2]] E. unfold summary_of in E. simpl in E.
  now injection E as -> -> ->.
Qed.

Global Instance object_entry_inj :
  Inj (=) (=) (fun kv : string * StoredObject => EObject (summary_of kv)).
Proof. intros x y E. apply summary_of_inj. congruence. Qed.

Section Listings.
Context {cfg : Config}.

Local Abbreviation plain prefix maxKeys :=
  {| list_Prefix := prefix; list_Delimiter := None;
     list_MaxKeys := maxKeys; list_ContinuationToken := None |}.

Lemma elem_of_sorted_objects (m : gmap string StoredObject) k o :
  (k, o) ∈ sorted_objects m <-> m !! k = Some o.
Proof.
  unfold sorted_objects. rewrite merge_sort_Permutation.
  apply elem_of_map_to_list.
Qed.

Lemma NoDup_sorted_keys (m : gmap string StoredObject) :
  NoDup ((sorted_objects m).*1).
Proof.
  unfold sorted_objects. rewrite merge_sort_Permutation.
  apply NoDup_fst_map_to_list.
Qed.

Lemma elem_of_objects_under prefix (m : gmap string StoredObject) k o :
  (k, o) ∈ objects_under prefix m <->
  m !! k = Some o /\ Js.startsWith k prefix = true.
Proof.
  unfold objects_under. rewrite elem_of_List_filter, elem_of_sorted_objects.
  simpl. tauto.
Qed.

Lemma NoDup_objects_under_keys prefix (m : gmap string StoredObject) :
  NoDup ((objects_under prefix m).*1).
Proof. apply NoDup_fst_List_filter, NoDup_sorted_keys. Qed.

Lemma NoDup_objects_under prefix (m : gmap string StoredObject) :
  NoDup (objects_under prefix m).
Proof. eapply NoDup_fmap_1, NoDup_objects_under_keys. Qed.

(** Without a delimiter and a token, the entries are the objects under
    the prefix. *)
Lemma selected_plain prefix maxKeys (m : gmap string StoredObject) :
  selected (plain prefix maxKeys) m
  = (fun kv => EObject (summary_of kv)) <$> objects_under prefix m.
Proof.
  unfold selected. simpl. rewrite List_filter_true.
  rewrite (list_fmap_compose summary_of EObject), roll_up_objects.
  now rewrite <- list_fmap_compose.
Qed.

Lemma objects_of_plain (l : list (string * StoredObject)) :
  objects_of ((fun kv => EObject (summary_of kv)) <$> l) = summary_of <$> l.
Proof. now apply omap_fmap_Some. Qed.

(** The answer to a plain listing: a page of the objects under the prefix,
    and whether more remain. *)
Lemma Contents_plain prefix maxKeys (m : gmap string StoredObject) :
  Contents (list_objects_v2 (plain prefix maxKeys) m)
  = if_any (summary_of <$>
              take (page_size (plain prefix maxKeys)) (objects_under prefix m)).
Proof.
  unfold list_objects_v2. cbn [Contents]. rewrite selected_plain.
  now rewrite <- fmap_take, objects_of_plain.
Qed.

Lemma IsTruncated_plain prefix maxKeys (m : gmap string StoredObject) :
  IsTruncated (list_objects_v2 (plain prefix maxKeys) m)
  = negb (count_under prefix m <=? page_size (plain prefix maxKeys)).
Proof.
  unfold list_objects_v2. cbn [IsTruncated]. rewrite selected_plain.
  now rewrite length_fmap.
Qed.

End Listings.

(** ** Running the commands *)

Section Runs.
Context {cfg : Config}.

Local Abbreviation plain prefix maxKeys :=
  {| list_Prefix := prefix; list_Delimiter := None;
     list_MaxKeys := maxKeys; list_ContinuationToken := None |}.

Lemma send_list_run (c : ListObjectsV2Command) (w : World) :
  send_list c w = (Returned (list_objects_v2 c (bucket w)), with_sent w (SentList c)).
Proof. reflexivity. Qed.

Lemma bind_send_list {B} (c : ListObjectsV2Command) (k : ListObjectsV2Output -> M B) (w : World) :
  bind (send_list c) k w = k (list_objects_v2 c (bucket w)) (with_sent w (SentList c)).
Proof. reflexivity. Qed.

Lemma bind_ret {A B} (a : A) (k : A -> M B) (w : World) :
  bind (ret a) k w = k a w.
Proof. reflexivity. Qed.

Lemma bind_returned {A B} (m : M A) (k : A -> M B) (w w' : World) (a : A) :
  m w = (Returned a, w') -> bind m k w = k a w'.
Proof. intros E. unfold bind. now rewrite E. Qed.

Lemma bind_thrown {A B} (m : M A) (k : A -> M B) (w w' : World) (e : JsError) :
  m w = (Thrown e, w') -> bind m k w = (Thrown e, w').
Proof. intros E. unfold bind. now rewrite E. Qed.

Lemma send_delete_run (keys : list string) (w : World) :
  0 < length keys <= maxKeysCeiling ->
  send_delete {| delete_Objects := keys |} w
  = (Returned tt,
     {| bucket := foldr delete (bucket w) keys;
        clock := clock w;
        sent := sent w ++ [SentDelete {| delete_Objects := keys |}] |}).
Proof.
  intros [H0 HL]. unfold send_delete, bind, log. cbn [delete_Objects].
  replace (length keys =? 0) with false by (symmetry; apply Nat.eqb_neq; lia).
  replace (length keys <=? maxKeysCeiling) with true
    by (symmetry; now apply Nat.leb_le).
  reflexivity.
Qed.

Lemma send_put_run (c : PutObjectCommand) (w : World) :
  send_put c w
  = (Returned tt,
     {| bucket := <[put_Key c := {| stored_size := default 0%N (put_Body c);
                                    stored_at := clock w |}]> (bucket w);
        clock := N.succ (clock w);
        sent := sent w ++ [SentPut c] |}).
Proof. reflexivity. Qed.

Lemma objects_under_nonempty prefix (m : gmap string StoredObject) k o :
  m !! k = Some o -> Js.startsWith k prefix = true -> 0 < count_under prefix m.
Proof.
  intros Hk Hp. unfold count_under.
  assert (Hin : (k, o) ∈ objects_under prefix m) by now apply elem_of_objects_under.
  destruct (objects_under prefix m); [inversion Hin | simpl; lia].
Qed.

Lemma count_under_zero prefix (m : gmap string StoredObject) :
  count_under prefix m = 0 <->
  forall k, Js.startsWith k prefix = true -> m !! k = None.
Proof.
  unfold count_under. split.
  - intros E%nil_length_inv k Hp. destruct (m !! k) as [o|] eqn:Hk; [|reflexivity].
    assert (Hin : (k, o) ∈ objects_under prefix m) by now apply elem_of_objects_under.
    rewrite E in Hin. inversion Hin.
  - intros Hn. destruct (objects_under prefix m) as [|[k o] l] eqn:E; [reflexivity |].
    assert (Hin : (k, o) ∈ objects_under prefix m) by (rewrite E; left).
    apply elem_of_objects_under in Hin as [Hk Hp]. rewrite (Hn k Hp) in Hk. discriminate.
Qed.

(** The pre-flight check of [renameFile]: one plain listing with
    [MaxKeys: 1]; it throws when something is under the key. *)
Lemma checkIfFileExists_conflict key (w : World) :
  0 < maxKeysCeiling -> 0 < count_under key (bucket w) ->
  checkIfFileExists key w
  = (Thrown (Error "The destination file or folder already exists."),
     with_sent w (SentList (plain key (Some 1)))).
Proof.
  intros HL Hn. unfold checkIfFileExists. rewrite bind_send_list, Contents_plain.
  unfold count_under in Hn. unfold page_size. cbn [list_MaxKeys].
  destruct (objects_under key (bucket w)) as [|kv l]; [simpl in Hn; lia |].
  destruct maxKeysCeiling as [|n]; [lia |]. reflexivity.
Qed.

Lemma checkIfFileExists_free key (w : World) :
  count_under key (bucket w) = 0 ->
  checkIfFileExists key w
  = (Returned tt, with_sent w (SentList (plain key (Some 1)))).
Proof.
  intros Hn. unfold checkIfFileExists. rewrite bind_send_list, Contents_plain.
  unfold count_under in Hn. apply nil_length_inv in Hn. rewrite Hn.
  now rewrite take_nil.
Qed.

(** A rename that passes the guards and finds something under the
    destination key stops at the check. *)
Lemma renameFile_stops_at_check (fuel : nat) (oldKey newKey : string) (isFolder : bool)
    (currentPrefix : string) (w : World) :
  0 < maxKeysCeiling ->
  0 < count_under (destinationKey newKey isFolder currentPrefix) (bucket w) ->
  Js.truthy oldKey = true -> Js.truthy newKey = true -> oldKey <> newKey ->
  (if isFolder then isValidFolderName newKey else isValidFileName newKey) = true ->
  renameFile fuel oldKey newKey isFolder currentPrefix w
  = (Thrown (Error "The destination file or folder already exists."),
     with_sent w (SentList (plain (destinationKey newKey isFolder currentPrefix) (Some 1)))).
Proof.
  intros HL Hn To Tn Hne V.
  unfold renameFile. rewrite To, Tn. cbn [negb orb].
  apply String.eqb_neq in Hne. rewrite Hne.
  unfold destinationKey in *. destruct isFolder; rewrite V; cbn [negb].
  - unfold bind at 1. unfold bind at 1.
    now rewrite (checkIfFileExists_conflict _ _ HL Hn).
  - unfold bind at 1. unfold bind at 1.
    now rewrite (checkIfFileExists_conflict _ _ HL Hn).
Qed.

Lemma mutating_calls_with_sent_list (w : World) (c : ListObjectsV2Command) :
  mutating_calls (sent (with_sent w (SentList c))) = mutating_calls (sent w).
Proof.
  unfold mutating_calls, with_sent. cbn [sent].
  rewrite List.filter_app. cbn. now rewrite app_nil_r.
Qed.

(** C1, amended: when the old and the new name are given and differ, the
    new name passes the validator of its kind and some object has a key
    that starts with the destination key, [renameFile] fails with the
    destination-already-exists error; the one command it has sent is the
    listing of the check, so nothing was copied or deleted and the bucket
    is as it was. *)
Theorem renameFile_conflict (fuel : nat) (oldKey newKey : string) (isFolder : bool)
    (currentPrefix : string) (w : World) (k : string) (o : StoredObject) :
  0 < maxKeysCeiling ->
  bucket w !! k = Some o ->
  Js.startsWith k (destinationKey newKey isFolder currentPrefix) = true ->
  Js.truthy oldKey = true -> Js.truthy newKey = true -> oldKey <> newKey ->
  (if isFolder then isValidFolderName newKey else isValidFileName newKey) = true ->
  renameFile fuel oldKey newKey isFolder currentPrefix w
  = (Thrown (Error "The destination file or folder already exists."),
     with_sent w (SentList (plain (destinationKey newKey isFolder currentPrefix) (Some 1)))) /\
  bucket (world (renameFile fuel oldKey newKey isFolder currentPrefix w)) = bucket w /\
  mutating_calls (sent (world (renameFile fuel oldKey newKey isFolder currentPrefix w)))
  = mutating_calls (sent w).
Proof.
  intros HL Hk Hp To Tn Hne V.
  rewrite (renameFile_stops_at_check fuel _ _ _ _ w HL
             (objects_under_nonempty _ _ _ _ Hk Hp) To Tn Hne V).
  split; [reflexivity |]. split; [reflexivity |].
  apply mutating_calls_with_sent_list.
Qed.

(** Whatever the arguments, a rename whose destination exists changes
    nothing in the bucket and sends neither a copy nor a deletion. *)
Lemma renameFile_destination_exists (fuel : nat) (oldKey newKey : string)
    (isFolder : bool) (currentPrefix : string) (w : World) (k : string) (o : StoredObject) :
  0 < maxKeysCeiling ->
  bucket w !! k = Some o ->
  Js.startsWith k (destinationKey newKey isFolder currentPrefix) = true ->
  bucket (world (renameFile fuel oldKey newKey isFolder currentPrefix w)) = bucket w /\
  mutating_calls (sent (world (renameFile fuel oldKey newKey isFolder currentPrefix w)))
  = mutating_calls (sent w).
Proof.
  intros HL Hk Hp.
  destruct (Js.truthy oldKey) eqn:To; [|unfold renameFile; rewrite To; now split].
  destruct (Js.truthy newKey) eqn:Tn; [|unfold renameFile; rewrite To, Tn; now split].
  destruct (String.eqb oldKey newKey) eqn:Eq.
  { unfold renameFile. rewrite To, Tn, Eq. now split. }
  destruct (if isFolder then isValidFolderName newKey else isValidFileName newKey) eqn:V.
  - apply String.eqb_neq in Eq.
    rewrite (renameFile_stops_at_check fuel _ _ _ _ w HL
               (objects_under_nonempty _ _ _ _ Hk Hp) To Tn Eq V).
    split; [reflexivity | apply mutating_calls_with_sent_list].
  - unfold renameFile. rewrite To, Tn, Eq. cbn [negb orb].
    destruct isFolder; rewrite V; now split.
Qed.

End Runs.

(** C1, as stated, fails: with [final.txt] in the bucket, renaming
    [final.txt] to itself returns without an error, and renaming
    [draft.txt] to [final] (no extension) while an object [final] exists
    fails with the validation error, not with the conflict. *)
Lemma renameFile_guards_come_first :
  renameFile (cfg := s3_config) 1 "final.txt" "final.txt" false ""
      (world_of [("draft.txt", 5%N); ("final.txt", 7%N)])
    = (Returned tt, world_of [("draft.txt", 5%N); ("final.txt", 7%N)]) /\
  renameFile (cfg := s3_config) 1 "draft.txt" "final" false ""
      (world_of [("draft.txt", 5%N); ("final", 7%N)])
    = (Thrown (Error "Invalid file name"),
       world_of [("draft.txt", 5%N); ("final", 7%N)]).
Proof. split; reflexivity. Qed.

Lemma renameFile_conflict_witness :
  renameFile (cfg := s3_config) 1 "draft.txt" "final.txt" false ""
      (world_of [("draft.txt", 5%N); ("final.txt", 7%N)])
  = (Thrown (Error "The destination file or folder already exists."),
     with_sent (world_of [("draft.txt", 5%N); ("final.txt", 7%N)])
       (SentList {| list_Prefix := "final.txt"; list_Delimiter := None;
                    list_MaxKeys := Some 1; list_ContinuationToken := None |})) /\
  bucket (world (renameFile (cfg := s3_config) 1 "draft.txt" "final.txt" false ""
                   (world_of [("draft.txt", 5%N); ("final.txt", 7%N)])))
  = bucket (world_of [("draft.txt", 5%N); ("final.txt", 7%N)]) /\
  mutating_calls
    (sent (world (renameFile (cfg := s3_config) 1 "draft.txt" "final.txt" false ""
                    (world_of [("draft.txt", 5%N); ("final.txt", 7%N)]))))
  = mutating_calls (sent (world_of [("draft.txt", 5%N); ("final.txt", 7%N)])).
Proof.
  apply (renameFile_conflict (cfg := s3_config) 1 "draft.txt" "final.txt" false ""
           (world_of [("draft.txt", 5%N); ("final.txt", 7%N)])
           "final.txt" {| stored_size := 7; stored_at := 0 |}).
  - vm_compute. lia.
  - reflexivity.
  - reflexivity.
  - reflexivity.
  - reflexivity.
  - discriminate.
  - reflexivity.
Defined.

(** ** Recursive deletion (C2, C8) *)

Section Deletion.
Context {cfg : Config}.

Lemma delete_calls_app (l k : list Command) :
  delete_calls (l ++ k) = delete_calls l + delete_calls k.
Proof. unfold delete_calls. now rewrite List.filter_app, length_app. Qed.

Lemma Key_summary_of (l : list (string * StoredObject)) :
  Key <$> (summary_of <$> l) = l.*1.
Proof. now rewrite <- list_fmap_compose. Qed.

Lemma page_size_list_all prefix : page_size (list_all prefix) = maxKeysCeiling.
Proof. reflexivity. Qed.

(** Nothing under the prefix: the response has no [Contents], and reading
    its length throws. *)
Lemma deleteFolderAndContents_nothing fuel prefix (w : World) :
  count_under prefix (bucket w) = 0 ->
  deleteFolderAndContents (S fuel) prefix w
  = (Thrown (TypeError "Cannot read properties of undefined (reading 'length')"),
     with_sent w (SentList (list_all prefix))).
Proof.
  intros Hn. cbn [deleteFolderAndContents].
  rewrite bind_send_list, Contents_plain.
  unfold count_under in Hn. apply nil_length_inv in Hn. rewrite Hn.
  now rewrite take_nil.
Qed.

(** Something under the prefix: its first page is deleted in one batch,
    and the function calls itself when the listing was truncated. *)
Lemma deleteFolderAndContents_round fuel prefix (w : World) :
  0 < maxKeysCeiling -> 0 < count_under prefix (bucket w) ->
  deleteFolderAndContents (S fuel) prefix w
  = if count_under prefix (bucket w) <=? maxKeysCeiling
    then (Returned tt, after_delete_round prefix w)
    else deleteFolderAndContents fuel prefix (after_delete_round prefix w).
Proof.
  intros HL Hn. cbn [deleteFolderAndContents].
  rewrite bind_send_list, Contents_plain, IsTruncated_plain.
  change (page_size _) with maxKeysCeiling.
  unfold count_under in *.
  set (U := objects_under prefix (bucket w)) in *.
  assert (Hp : 0 < length (take maxKeysCeiling U) <= maxKeysCeiling)
    by (rewrite length_take; lia).
  assert (Ea : after_delete_round prefix w
               = {| bucket := foldr delete (bucket w) (take maxKeysCeiling U).*1;
                    clock := clock w;
                    sent := sent (with_sent w (SentList (list_all prefix))) ++
                            [SentDelete {| delete_Objects := (take maxKeysCeiling U).*1 |}] |}).
  { unfold after_delete_round. fold U. cbn [with_sent sent].
    now rewrite <- app_assoc. }
  destruct (take maxKeysCeiling U) as [|kv page] eqn:Ep; [simpl in Hp; lia |].
  rewrite fmap_cons. cbn [if_any defined]. rewrite bind_ret.
  rewrite <- fmap_cons, length_fmap. cbn [length Nat.eqb].
  rewrite Key_summary_of.
  assert (Hk : 0 < length ((kv :: page).*1) <= maxKeysCeiling)
    by (rewrite length_fmap; exact Hp).
  rewrite (bind_returned _ _ _ _ _ (send_delete_run _ _ Hk)).
  rewrite Ea. now destruct (length U <=? maxKeysCeiling).
Qed.

Lemma elem_of_take_drop_keys {A B} (l : list (A * B)) n k o :
  NoDup (l.*1) ->
  (k, o) ∈ drop n l <-> (k, o) ∈ l /\ k ∉ (take n l).*1.
Proof.
  intros Hd. rewrite <- (take_drop n l) in Hd at 1.
  rewrite fmap_app in Hd. apply NoDup_app in Hd as (_ & Hdis & _).
  split.
  - intros Hin. split.
    + rewrite <- (take_drop n l). apply elem_of_app. now right.
    + intros Hk. apply (Hdis k Hk).
      apply list_elem_of_fmap. now exists (k, o).
  - intros [Hin Hk]. rewrite <- (take_drop n l) in Hin.
    apply elem_of_app in Hin as [Hin|Hin]; [|exact Hin].
    exfalso. apply Hk. apply list_elem_of_fmap. now exists (k, o).
Qed.

(** A round removes a page of the objects under the prefix. *)
Lemma count_after_delete_round prefix (w : World) :
  count_under prefix (bucket (after_delete_round prefix w))
  = count_under prefix (bucket w) - maxKeysCeiling.
Proof.
  unfold count_under, after_delete_round. cbn [bucket].
  set (U := objects_under prefix (bucket w)).
  rewrite <- (length_drop U maxKeysCeiling).
  apply Permutation_length, NoDup_Permutation.
  - apply NoDup_objects_under.
  - apply (sublist_NoDup _ U); [apply NoDup_objects_under | apply sublist_drop].
  - intros [k o].
    rewrite elem_of_objects_under, lookup_foldr_delete_Some.
    rewrite (elem_of_take_drop_keys U) by apply NoDup_objects_under_keys.
    unfold U. rewrite elem_of_objects_under. tauto.
Qed.

Lemma lookup_after_delete_round prefix (w : World) k :
  bucket (after_delete_round prefix w) !! k
  = if Js.startsWith k prefix
    then (if decide (k ∈ (take maxKeysCeiling (objects_under prefix (bucket w))).*1)
          then None else bucket w !! k)
    else bucket w !! k.
Proof.
  unfold after_delete_round. cbn [bucket].
  set (keys := (take maxKeysCeiling (objects_under prefix (bucket w))).*1).
  destruct (decide (k ∈ keys)) as [Hin|Hout].
  - rewrite (lookup_foldr_delete _ _ _ Hin).
    apply list_elem_of_fmap in Hin as ([k' o] & -> & Hin).
    assert (Hu : (k', o) ∈ objects_under prefix (bucket w)).
    { rewrite <- (take_drop maxKeysCeiling). apply elem_of_app. now left. }
    apply elem_of_objects_under in Hu as [_ Hp]. simpl. now rewrite Hp.
  - rewrite (lookup_foldr_delete_not_elem_of _ _ _ Hout).
    now destruct (Js.startsWith k prefix).
Qed.

Lemma pages_zero : 0 < maxKeysCeiling -> pages 0 = 0.
Proof. intros HL. unfold pages. apply Nat.div_small. lia. Qed.

Lemma pages_one n : 0 < n <= maxKeysCeiling -> pages n = 1.
Proof.
  intros Hn. unfold pages.
  replace (n + maxKeysCeiling - 1) with ((n - 1) + 1 * maxKeysCeiling) by lia.
  rewrite Nat.div_add by lia. rewrite Nat.div_small by lia. reflexivity.
Qed.

Lemma pages_more n :
  0 < maxKeysCeiling < n -> pages n = S (pages (n - maxKeysCeiling)).
Proof.
  intros Hn. unfold pages.
  replace (n + maxKeysCeiling - 1)
    with ((n - maxKeysCeiling + maxKeysCeiling - 1) + 1 * maxKeysCeiling) by lia.
  rewrite Nat.div_add by lia. lia.
Qed.

(** With fuel for every object under the prefix, recursive deletion ends;
    it leaves nothing under the prefix and everything else in place, and
    sends one batch deletion per page. *)
Lemma deleteFolderAndContents_run fuel prefix (w : World) :
  0 < maxKeysCeiling ->
  count_under prefix (bucket w) < fuel ->
  outcome (deleteFolderAndContents fuel prefix w)
    = (if count_under prefix (bucket w) =? 0
       then Thrown (TypeError "Cannot read properties of undefined (reading 'length')")
       else Returned tt) /\
  (forall k, bucket (world (deleteFolderAndContents fuel prefix w)) !! k
             = if Js.startsWith k prefix then None else bucket w !! k) /\
  delete_calls (sent (world (deleteFolderAndContents fuel prefix w)))
    = delete_calls (sent w) + pages (count_under prefix (bucket w)).
Proof.
  intros HL. revert w. induction fuel as [|fuel IH]; intros w Hf; [lia |].
  destruct (count_under prefix (bucket w)) as [|n] eqn:En.
  - rewrite (deleteFolderAndContents_nothing _ _ _ En).
    unfold outcome, world. cbn [fst snd with_sent bucket sent]. repeat split.
    + intros k. destruct (Js.startsWith k prefix) eqn:Hp; [|reflexivity].
      now apply (proj1 (count_under_zero prefix (bucket w)) En).
    + rewrite delete_calls_app, pages_zero by exact HL. reflexivity.
  - rewrite deleteFolderAndContents_round by (exact HL || lia). rewrite En.
    assert (Hsent : delete_calls (sent (after_delete_round prefix w))
                    = S (delete_calls (sent w))).
    { unfold after_delete_round. cbn [sent]. rewrite delete_calls_app.
      cbn. lia. }
    destruct (S n <=? maxKeysCeiling) eqn:Hle.
    + apply Nat.leb_le in Hle.
      unfold outcome, world. cbn [fst snd Nat.eqb]. repeat split.
      * intros k. rewrite lookup_after_delete_round.
        destruct (Js.startsWith k prefix) eqn:Hp; [|reflexivity].
        destruct (decide _) as [|Hout]; [reflexivity |].
        destruct (bucket w !! k) as [o|] eqn:Hk; [|reflexivity].
        exfalso. apply Hout. apply list_elem_of_fmap. exists (k, o).
        split; [reflexivity |].
        rewrite take_ge by (fold (count_under prefix (bucket w)); lia).
        now apply elem_of_objects_under.
      * rewrite Hsent, pages_one by lia. lia.
    + apply Nat.leb_gt in Hle.
      assert (Hc := count_after_delete_round prefix w). rewrite En in Hc.
      destruct (IH (after_delete_round prefix w)) as (Ho & Hb & Hs); [lia |].
      rewrite Ho, Hs, Hc, Hsent. repeat split.
      * cbn [Nat.eqb]. destruct (S n - maxKeysCeiling) eqn:E; [lia | reflexivity].
      * intros k. rewrite Hb, lookup_after_delete_round.
        now destruct (Js.startsWith k prefix).
      * rewrite (pages_more (S n)) by lia. lia.
Qed.

End Deletion.

Example numbered_3 :
  numbered "folder/" 3 = [("folder/0", 1%N); ("folder/1", 1%N); ("folder/2", 1%N)].
Proof. reflexivity. Qed.

(** C2: for every prefix, recursive deletion (with fuel for each object
    under it) ends, removes every object whose key starts with the prefix,
    nested folders included, and leaves the other objects as they were; it
    sends one batch deletion per page, so with pages of 1000 a prefix that
    holds 1500 objects takes two batch deletions, and nothing is under the
    prefix afterwards. *)
Theorem deleteFolderAndContents_removes_all {cfg : Config} (fuel : nat)
    (prefix : string) (w : World) :
  0 < maxKeysCeiling ->
  count_under prefix (bucket w) < fuel ->
  let w' := world (deleteFolderAndContents fuel prefix w) in
  outcome (deleteFolderAndContents fuel prefix w) <> OutOfFuel /\
  (forall k, Js.startsWith k prefix = true -> bucket w' !! k = None) /\
  count_under prefix (bucket w') = 0 /\
  (forall k, Js.startsWith k prefix = false -> bucket w' !! k = bucket w !! k) /\
  delete_calls (sent w') = delete_calls (sent w) + pages (count_under prefix (bucket w)) /\
  (maxKeysCeiling = 1000 -> count_under prefix (bucket w) = 1500 ->
   delete_calls (sent w') = delete_calls (sent w) + 2).
Proof.
  intros HL Hf w'.
  destruct (deleteFolderAndContents_run fuel prefix w HL Hf) as (Ho & Hb & Hs).
  fold w' in Hb, Hs.
  assert (Hgone : forall k, Js.startsWith k prefix = true -> bucket w' !! k = None).
  { intros k Hp. now rewrite Hb, Hp. }
  repeat split.
  - rewrite Ho. destruct (_ =? 0); discriminate.
  - exact Hgone.
  - now apply count_under_zero.
  - intros k Hp. now rewrite Hb, Hp.
  - exact Hs.
  - intros E1 E2. rewrite Hs, E2. unfold pages. rewrite E1. reflexivity.
Qed.

Lemma deleteFolderAndContents_removes_all_witness :
  let w := world_of (("other.txt", 9%N) :: numbered "folder/" 1500) in
  let w' := world (deleteFolderAndContents (cfg := s3_config) 1501 "folder/" w) in
  outcome (deleteFolderAndContents (cfg := s3_config) 1501 "folder/" w) <> OutOfFuel /\
  (forall k, Js.startsWith k "folder/" = true -> bucket w' !! k = None) /\
  count_under "folder/" (bucket w') = 0 /\
  (forall k, Js.startsWith k "folder/" = false -> bucket w' !! k = bucket w !! k) /\
  delete_calls (sent w')
    = delete_calls (sent w) + pages (cfg := s3_config) (count_under "folder/" (bucket w)) /\
  (maxKeysCeiling (Config := s3_config) = 1000 ->
   count_under "folder/" (bucket w) = 1500 ->
   delete_calls (sent w') = delete_calls (sent w) + 2).
Proof.
  apply (deleteFolderAndContents_removes_all (cfg := s3_config) 1501 "folder/"
           (world_of (("other.txt", 9%N) :: numbered "folder/" 1500))).
  - apply Nat.ltb_lt. vm_compute. reflexivity.
  - apply Nat.ltb_lt. vm_compute. reflexivity.
Defined.

(** The run on 1500 objects, evaluated: two batch deletions, of 1000 and
    of 500 keys, and only the object outside the prefix is left. *)
Example deleteFolderAndContents_1500 :
  let r := deleteFolderAndContents (cfg := s3_config) 1501 "folder/"
             (world_of (("other.txt", 9%N) :: numbered "folder/" 1500)) in
  outcome r = Returned tt /\
  delete_calls (sent (world r)) = 2 /\
  (fun c => match c with
            | SentDelete d => length (delete_Objects d)
            | _ => 0
            end) <$> sent (world r) = [0; 1000; 0; 500] /\
  (map_to_list (bucket (world r))).*1 = ["other.txt"].
Proof. vm_compute. repeat split; reflexivity. Qed.

(** C8, at the failing input: nothing is under [empty/], the response has
    no [Contents], and the function throws a [TypeError] instead of
    returning; no batch deletion is sent. *)
Theorem deleteFolderAndContents_empty_prefix_throws :
  deleteFolderAndContents (cfg := s3_config) 1 "empty/" (world_of [("docs/a.txt", 3%N)])
  = (Thrown (TypeError "Cannot read properties of undefined (reading 'length')"),
     with_sent (world_of [("docs/a.txt", 3%N)]) (SentList (list_all "empty/"))) /\
  delete_calls
    (sent (world (deleteFolderAndContents (cfg := s3_config) 1 "empty/"
                    (world_of [("docs/a.txt", 3%N)])))) = 0.
Proof. split; reflexivity. Qed.

(** ** Listing (C4, C7) *)

Lemma startsWith_slash_cons (c : ascii) (s : string) :
  Js.startsWith (String c s) "/" = Ascii.eqb "/" c.
Proof. cbn [Js.startsWith]. destruct s; apply andb_true_r. Qed.

Lemma indexOf_slash_split (rest : string) (i : nat) :
  Js.indexOf rest "/" = Some i ->
  exists seg tail, rest = seg +:+ "/" +:+ tail /\ Js.length seg = i /\
                   Js.indexOf seg "/" = None.
Proof.
  revert i. induction rest as [|c rest IH]; intros i; [discriminate |].
  cbn [Js.indexOf]. destruct (Js.startsWith (String c rest) "/") eqn:E.
  - intros [= <-]. apply startsWith_spec in E as [tail E].
    exists "", tail. now rewrite E.
  - destruct (Js.indexOf rest "/") as [j|] eqn:Ej; [|discriminate].
    intros [= <-]. destruct (IH j eq_refl) as (seg & tail & -> & <- & Hs).
    exists (String c seg), tail. repeat split.
    cbn [Js.indexOf]. rewrite Hs.
    rewrite startsWith_slash_cons in E |- *. now rewrite E.
Qed.

Lemma indexOf_slash_append (seg tail : string) :
  Js.indexOf seg "/" = None ->
  Js.indexOf (seg +:+ "/" +:+ tail) "/" = Some (Js.length seg).
Proof.
  induction seg as [|c seg IH]; [intros _; apply (indexOf_append "/" tail) |].
  cbn [Js.indexOf]. destruct (Js.startsWith (String c seg) "/") eqn:E; [discriminate |].
  destruct (Js.indexOf seg "/") eqn:Es; [discriminate |]. intros _.
  change (String c seg +:+ "/" +:+ tail) with (String c (seg +:+ "/" +:+ tail)).
  cbn [Js.indexOf]. rewrite startsWith_slash_cons in E |- *. now rewrite E, IH.
Qed.

Lemma slice_to_segment (seg tail : string) :
  Js.slice_to (Js.length seg + 1) (seg +:+ "/" +:+ tail) = seg +:+ "/".
Proof.
  change 1 with (Js.length "/").
  rewrite <- length_append, <- append_assoc. apply slice_to_append.
Qed.

(** A rolled-up key: the common prefix is the prefix, a segment without a
    slash, and the slash. *)
Lemma classify_common_prefix prefix k o cp :
  Js.startsWith k prefix = true ->
  classify prefix (Some "/") (k, o) = ECommonPrefix cp ->
  exists seg, Js.indexOf seg "/" = None /\ cp = prefix +:+ seg +:+ "/" /\
              Js.startsWith k cp = true.
Proof.
  intros [rest ->]%startsWith_spec. unfold classify. cbn [fst].
  rewrite slice_append.
  destruct (Js.indexOf rest "/") as [i|] eqn:Ei; [|discriminate].
  intros [= <-].
  destruct (indexOf_slash_split _ _ Ei) as (seg & tail & -> & <- & Hs).
  exists seg. split; [exact Hs |].
  change (Js.length "/") with 1. rewrite slice_to_segment.
  split; [reflexivity |].
  apply startsWith_spec. exists tail. now rewrite !append_assoc.
Qed.

Lemma elem_of_roll_up (seen : gset string) (l : list Entry) (e : Entry) :
  e ∈ roll_up seen l -> e ∈ l.
Proof.
  revert seen. induction l as [|e' l IH]; intros seen; [inversion 1 |].
  destruct e' as [o|p]; simpl.
  - intros [->|Hin]%elem_of_cons; [left | right; eauto].
  - destruct (decide (p ∈ seen)).
    + intros Hin. right. eauto.
    + intros [->|Hin]%elem_of_cons; [left | right; eauto].
Qed.

Lemma elem_of_prefixes_of (l : list Entry) (p : string) :
  p ∈ prefixes_of l <-> ECommonPrefix p ∈ l.
Proof.
  unfold prefixes_of. rewrite list_elem_of_omap. split.
  - intros ([o|q] & Hin & [= ->]). exact Hin.
  - intros Hin. now exists (ECommonPrefix p).
Qed.

Lemma elem_of_objects_of (l : list Entry) (o : ObjectSummary) :
  o ∈ objects_of l <-> EObject o ∈ l.
Proof.
  unfold objects_of. rewrite list_elem_of_omap. split.
  - intros ([o'|q] & Hin & [= ->]). exact Hin.
  - intros Hin. now exists (EObject o).
Qed.

Lemma elem_of_take_elem {A} (l : list A) (n : nat) (x : A) : x ∈ take n l -> x ∈ l.
Proof. intros Hin. rewrite <- (take_drop n l). apply elem_of_app. now left. Qed.

Section ListingView.
Context {cfg : Config}.

Lemma listContents_run prefix (w : World) :
  listContents prefix w
  = (Returned (listContents_view prefix (list_objects_v2 (list_children prefix) (bucket w))),
     with_sent w (SentList (list_children prefix))).
Proof. reflexivity. Qed.

(** What a listing of children reports as a common prefix comes from a
    key of the bucket under the prefix. *)
Lemma CommonPrefixes_children prefix (m : gmap string StoredObject) cps cp :
  CommonPrefixes (list_objects_v2 (list_children prefix) m) = Some cps ->
  cp ∈ cps ->
  exists k o, m !! k = Some o /\ Js.startsWith k prefix = true /\
              classify prefix (Some "/") (k, o) = ECommonPrefix cp.
Proof.
  unfold list_objects_v2. cbn [CommonPrefixes].
  intros [<- _]%if_any_Some Hin.
  apply elem_of_prefixes_of, elem_of_take_elem in Hin.
  unfold selected in Hin. cbn in Hin.
  apply elem_of_List_filter in Hin as [_ Hin].
  apply elem_of_roll_up, list_elem_of_fmap in Hin as ([k o] & E & Hin).
  apply elem_of_objects_under in Hin as [Hk Hp]. eauto.
Qed.

(** C4: whatever the response of the store, no entry of the [objects]
    that [listContents] returns has size 0 and a key that ends with a
    slash; and [listContents] returns the view of the response it got. *)
Theorem listContents_hides_placeholders (prefix : string) (data : ListObjectsV2Output)
    (w : World) :
  Forall (fun e => (object_size e =? 0)%N && Js.endsWith (object_path e) "/" = false)
         (objects (listContents_view prefix data)) /\
  exists response,
    outcome (listContents prefix w) = Returned (listContents_view prefix response).
Proof.
  split; [|now eexists].
  apply Forall_forall. intros e. unfold listContents_view. cbn [objects].
  intros (o & -> & Ho)%list_elem_of_fmap. cbn [object_size object_path].
  apply elem_of_List_filter in Ho as [_ Ho].
  destruct (Contents data) as [cs|]; [|inversion Ho].
  apply elem_of_List_filter in Ho as [Ho _].
  now apply negb_true_iff in Ho.
Qed.

(** C7, amended: for every listing under a prefix, the name of each folder
    entry is the common prefix without the parent prefix, its trailing
    slash kept (a segment without a slash, then the slash), and the path
    is the full common prefix, under which the bucket holds a key. *)
Theorem listContents_folder_entries (prefix : string) (w : World) :
  exists l,
    listContents prefix w = (Returned l, with_sent w (SentList (list_children prefix))) /\
    Forall (fun f =>
              exists seg, Js.indexOf seg "/" = None /\
                          folder_name f = seg +:+ "/" /\
                          folder_path f = prefix +:+ folder_name f /\
                          exists k, is_Some (bucket w !! k) /\
                                    Js.startsWith k (folder_path f) = true)
           (folders l).
Proof.
  eexists. split; [apply listContents_run |].
  apply Forall_forall. intros f. unfold listContents_view. cbn [folders].
  destruct (CommonPrefixes _) as [cps|] eqn:Ec; [|inversion 1].
  intros (cp & -> & Hcp)%list_elem_of_fmap. cbn [folder_name folder_path].
  apply elem_of_List_filter in Hcp as [_ Hcp].
  destruct (CommonPrefixes_children _ _ _ _ Ec Hcp) as (k & o & Hk & Hp & Hc).
  destruct (classify_common_prefix _ _ _ _ Hp Hc) as (seg & Hs & -> & Hkc).
  exists seg. rewrite slice_append. repeat split; [exact Hs |].
  exists k. split; [now exists o | exact Hkc].
Qed.

End ListingView.

(** C7, as stated, fails: the common prefix [docs/sub/] listed under
    [docs/] gets the name [sub/], the trailing slash still on it. *)
Lemma listContents_folder_name_keeps_slash :
  outcome (listContents (cfg := s3_config) "docs/" (world_of [("docs/sub/x.txt", 1%N)]))
  = Returned {| folders := [{| folder_name := "sub/";
                               folder_path := "docs/sub/";
                               folder_url := "/?prefix=docs/sub/" |}];
                objects := [] |}.
Proof. reflexivity. Qed.

(** ** Default folders (C3) *)

Lemma replace_prefix_empty (p r : string) : Js.replace (p +:+ r) p "" = r.
Proof.
  unfold Js.replace. rewrite indexOf_append. cbn [Js.slice_to Js.getSubstitution].
  cbn [Nat.add]. now rewrite slice_append.
Qed.

Lemma replace_slash_empty (seg : string) :
  Js.indexOf seg "/" = None -> Js.replace (seg +:+ "/") "/" "" = seg.
Proof.
  intros Hs. unfold Js.replace.
  change (seg +:+ "/") with (seg +:+ "/" +:+ "").
  rewrite (indexOf_slash_append seg "" Hs). cbn [Js.getSubstitution].
  change (Js.length seg + Js.length "/") with (Js.length seg + Js.length "/").
  rewrite <- (append_assoc seg "/" "") at 2.
  rewrite <- length_append, slice_append.
  now rewrite slice_to_append, !append_empty_r.
Qed.

(** The name the seeding computes for a common prefix. *)
Lemma folder_name_of_common_prefix (prefix seg : string) :
  Js.indexOf seg "/" = None ->
  Js.replace (Js.replace (prefix +:+ seg +:+ "/") prefix "") "/" "" = seg.
Proof. intros Hs. now rewrite replace_prefix_empty, replace_slash_empty. Qed.

Lemma defaultFolders_no_slash (folder : string) :
  folder ∈ defaultFolders -> Js.indexOf folder "/" = None.
Proof.
  unfold defaultFolders. rewrite !elem_of_cons, elem_of_nil.
  intros [->|[->|[->|[->|[->|[->|[->|[]]]]]]]]; reflexivity.
Qed.

Lemma roll_up_intro (seen : gset string) (l : list Entry) (e : Entry) :
  e ∈ l -> (forall p, e = ECommonPrefix p -> p ∉ seen) -> e ∈ roll_up seen l.
Proof.
  revert seen. induction l as [|e' l IH]; intros seen; [inversion 1 |].
  destruct e' as [o|p]; simpl.
  - intros [->|Hin]%elem_of_cons Hs; [left | right; eauto].
  - intros [->|Hin]%elem_of_cons Hs.
    + rewrite decide_False by now apply Hs. left.
    + destruct (decide (p ∈ seen)); [now apply IH |].
      destruct (decide (e = ECommonPrefix p)) as [->|Hne]; [left | right].
      apply IH; [exact Hin |].
      intros q ->. rewrite elem_of_union, elem_of_singleton.
      intros [->|Hq]; [congruence | now apply (Hs q)].
Qed.

Lemma roll_up_prefixes (seen : gset string) (l : list Entry) :
  NoDup (prefixes_of (roll_up seen l)) /\
  forall p, p ∈ prefixes_of (roll_up seen l) -> p ∉ seen.
Proof.
  revert seen. induction l as [|e' l IH]; intros seen;
    [split; [constructor | inversion 1] |].
  destruct e' as [o|p]; simpl.
  - apply IH.
  - destruct (decide (p ∈ seen)) as [Hin|Hout]; [apply IH |].
    destruct (IH ({[p]} ∪ seen)) as [Hd Hs].
    change (prefixes_of (ECommonPrefix p :: roll_up ({[p]} ∪ seen) l))
      with (p :: prefixes_of (roll_up ({[p]} ∪ seen) l)).
    split.
    + constructor; [|exact Hd]. intros Hp. apply (Hs p Hp).
      apply elem_of_union. left. now apply elem_of_singleton.
    + intros q [->|Hq]%elem_of_cons; [exact Hout |].
      intros Hq'. apply (Hs q Hq). apply elem_of_union. now right.
Qed.

Lemma classify_key_only prefix d k (o o' : StoredObject) cp :
  classify prefix (Some d) (k, o) = ECommonPrefix cp ->
  classify prefix (Some d) (k, o') = ECommonPrefix cp.
Proof.
  unfold classify. cbn [fst].
  now destruct (Js.indexOf (Js.slice (Js.length prefix) k) d).
Qed.

Lemma classify_placeholder prefix folder (o : StoredObject) :
  Js.indexOf folder "/" = None ->
  classify prefix (Some "/") (prefix +:+ folder +:+ "/", o)
  = ECommonPrefix (prefix +:+ folder +:+ "/").
Proof.
  intros Hs. unfold classify. cbn [fst]. rewrite slice_append.
  change (folder +:+ "/") with (folder +:+ "/" +:+ "").
  rewrite (indexOf_slash_append folder "" Hs).
  change (Js.length "/") with 1. now rewrite slice_to_segment.
Qed.

Section Seeding.
Context {cfg : Config}.

(** A key of the bucket under the prefix shows in the full selection of
    its children. *)
Lemma selected_children_intro prefix (m : gmap string StoredObject) k o e :
  m !! k = Some o -> Js.startsWith k prefix = true ->
  classify prefix (Some "/") (k, o) = e ->
  e ∈ selected (list_children prefix) m.
Proof.
  intros Hk Hp <-. unfold selected. cbn. rewrite List_filter_true.
  apply roll_up_intro; [|set_solver].
  apply list_elem_of_fmap. exists (k, o). split; [reflexivity |].
  now apply elem_of_objects_under.
Qed.

Lemma elem_of_existingFolderNames prefix (out : ListObjectsV2Output) name :
  name ∈ existingFolderNames prefix out <->
  exists cps cp, CommonPrefixes out = Some cps /\ cp ∈ cps /\
                 name = Js.replace (Js.replace cp prefix "") "/" "".
Proof.
  unfold existingFolderNames. destruct (CommonPrefixes out) as [cps|].
  - rewrite elem_of_list_to_set, list_elem_of_fmap. split.
    + intros (cp & -> & Hin). eauto.
    + intros (cps' & cp & [= <-] & Hin & ->). eauto.
  - split; [set_solver | intros (? & ? & [=] & _)].
Qed.

Lemma after_puts_snoc (cs : list PutObjectCommand) (c : PutObjectCommand) (w : World) :
  after_puts (cs ++ [c]) w = world (send_put c (after_puts cs w)).
Proof. unfold after_puts. now rewrite foldl_app. Qed.

Lemma sent_after_puts (cs : list PutObjectCommand) (w : World) :
  sent (after_puts cs w) = sent w ++ (SentPut <$> cs).
Proof.
  revert w. induction cs as [|c cs IH]; intros w; simpl.
  - now rewrite app_nil_r.
  - rewrite IH. cbn [sent world snd]. now rewrite <- app_assoc.
Qed.

Lemma lookup_after_puts_other (cs : list PutObjectCommand) (w : World) k :
  k ∉ put_Key <$> cs -> bucket (after_puts cs w) !! k = bucket w !! k.
Proof.
  revert w. induction cs as [|c cs IH]; intros w; simpl; [reflexivity |].
  rewrite not_elem_of_cons. intros [Hne Hk]. rewrite IH by exact Hk.
  cbn [bucket world snd]. now rewrite lookup_insert_ne.
Qed.

Lemma lookup_after_puts_kept (cs : list PutObjectCommand) (w : World) k :
  is_Some (bucket w !! k) -> is_Some (bucket (after_puts cs w) !! k).
Proof.
  revert w. induction cs as [|c cs IH]; intros w; simpl; [tauto |].
  intros Hk. apply IH. cbn [bucket world snd].
  rewrite lookup_insert. destruct (decide (put_Key c = k)); [eauto | exact Hk].
Qed.

Lemma lookup_after_puts_placeholder (cs : list PutObjectCommand) (w : World) c :
  c ∈ cs -> Forall (fun c => put_Body c = None) cs ->
  exists t, bucket (after_puts cs w) !! put_Key c
            = Some {| stored_size := 0; stored_at := t |}.
Proof.
  induction cs as [|d cs IH] using rev_ind; [inversion 1 |].
  intros Hin Hall. rewrite after_puts_snoc.
  apply Forall_app in Hall as [Hall Hd]. apply Forall_inv in Hd.
  rewrite send_put_run. unfold world. cbn [snd bucket].
  rewrite lookup_insert. destruct (decide (put_Key d = put_Key c)) as [E|Hne].
  - rewrite Hd. eauto.
  - apply elem_of_app in Hin as [Hin|Hin%list_elem_of_singleton];
      [now apply IH | congruence].
Qed.

(** The loop of the seeding puts a placeholder for each folder that is
    not among the names. *)
Lemma seeding_loop prefix (names : gset string) (l : list string) (w : World) :
  for_of l (fun folder =>
    if decide (folder ∈ names) then ret tt
    else send_put {| put_Key := prefix +:+ folder +:+ "/"; put_Body := None |}) w
  = (Returned tt,
     after_puts (placeholder prefix <$>
                   List.filter (fun folder => negb (bool_decide (folder ∈ names))) l) w).
Proof.
  revert w. induction l as [|folder l IH]; intros w; [reflexivity |].
  cbn [for_of List.filter]. destruct (decide (folder ∈ names)) as [Hin|Hout].
  - rewrite bool_decide_true by exact Hin. cbn [negb]. rewrite bind_ret. apply IH.
  - rewrite bool_decide_false by exact Hout. cbn [negb].
    rewrite (bind_returned _ _ _ _ _ (send_put_run _ w)). rewrite IH.
    reflexivity.
Qed.

Lemma ensureDefaultFoldersExist_run prefix (w : World) :
  ensureDefaultFoldersExist prefix w
  = (Returned tt,
     after_puts (placeholder prefix <$> missing_folders prefix w)
       (with_sent w (SentList (list_children prefix)))).
Proof.
  unfold ensureDefaultFoldersExist. rewrite bind_send_list.
  apply seeding_loop.
Qed.

End Seeding.

Section SeedingTwice.
Context {cfg : Config}.

(** After the seeding every canonical folder is a common prefix of the
    children of the root: through its placeholder, or through the key that
    made the first listing show it. *)
Lemma default_folder_selected root (w : World) folder :
  folder ∈ defaultFolders ->
  ECommonPrefix (root +:+ folder +:+ "/")
    ∈ selected (list_children root)
        (bucket (world (ensureDefaultFoldersExist root w))).
Proof.
  intros Hd. rewrite ensureDefaultFoldersExist_run. unfold world. cbn [snd].
  set (cs := placeholder root <$> missing_folders root w).
  set (w0 := with_sent w (SentList (list_children root))).
  destruct (decide (folder ∈ missing_folders root w)) as [Hm|Hm].
  - destruct (lookup_after_puts_placeholder cs w0 (placeholder root folder))
      as [t Ht].
    { now apply list_elem_of_fmap_2. }
    { apply Forall_fmap, Forall_forall. reflexivity. }
    eapply selected_children_intro; [exact Ht | apply startsWith_append |].
    apply classify_placeholder, defaultFolders_no_slash, Hd.
  - assert (He : folder ∈ existingFolderNames root
                   (list_objects_v2 (list_children root) (bucket w))).
    { destruct (decide (folder ∈ existingFolderNames root
                   (list_objects_v2 (list_children root) (bucket w))))
        as [He|He]; [exact He |].
      exfalso. apply Hm. unfold missing_folders.
      apply elem_of_List_filter. split; [|exact Hd].
      now rewrite bool_decide_false. }
    apply elem_of_existingFolderNames in He as (cps & cp & Ec & Hcp & ->).
    destruct (CommonPrefixes_children _ _ _ _ Ec Hcp) as (k & o & Hk & Hp & Hc).
    destruct (classify_common_prefix _ _ _ _ Hp Hc) as (seg & Hs & -> & _).
    rewrite (folder_name_of_common_prefix root seg Hs).
    destruct (lookup_after_puts_kept cs w0 k) as [o' Hk']; [now exists o |].
    eapply selected_children_intro; [exact Hk' | exact Hp |].
    exact (classify_key_only _ _ _ _ _ _ Hc).
Qed.

Lemma untruncated_page (c : ListObjectsV2Command) (m : gmap string StoredObject) :
  IsTruncated (list_objects_v2 c m) = false ->
  take (page_size c) (selected c m) = selected c m.
Proof.
  unfold list_objects_v2. cbn [IsTruncated].
  intros Hle%negb_false_iff%Nat.leb_le. now apply take_ge.
Qed.

(** C3, amended: when the children of the root, after the seeding, fit in
    one page of the listing, running [ensureDefaultFoldersExist] again
    sends the listing and nothing else, so the bucket is the same after
    two runs as after one; every canonical folder is then listed exactly
    once as a child prefix; and the first run puts a zero-byte placeholder
    at [root + name + "/"] for the names missing from the common prefixes
    its listing showed, and for no other. *)
Theorem ensureDefaultFoldersExist_idempotent (root : string) (w : World) :
  let w1 := world (ensureDefaultFoldersExist root w) in
  IsTruncated (list_objects_v2 (list_children root) (bucket w1)) = false ->
  (ensureDefaultFoldersExist root w1
   = (Returned tt, with_sent w1 (SentList (list_children root))) /\
   bucket (world (ensureDefaultFoldersExist root w1)) = bucket w1) /\
  (exists cps,
     CommonPrefixes (list_objects_v2 (list_children root) (bucket w1)) = Some cps /\
     NoDup cps /\
     forall folder, folder ∈ defaultFolders -> root +:+ folder +:+ "/" ∈ cps) /\
  (outcome (ensureDefaultFoldersExist root w) = Returned tt /\
   sent w1 = sent w ++ SentList (list_children root)
                       :: (SentPut <$> (placeholder root <$> missing_folders root w)) /\
   forall folder, folder ∈ missing_folders root w ->
     exists t, bucket w1 !! (root +:+ folder +:+ "/")
               = Some {| stored_size := 0; stored_at := t |}).
Proof.
  intros w1 Ht.
  assert (Hsel : forall folder, folder ∈ defaultFolders ->
            root +:+ folder +:+ "/"
              ∈ prefixes_of (take maxKeysCeiling (selected (list_children root) (bucket w1)))).
  { intros folder Hd. change maxKeysCeiling with (page_size (list_children root)).
    rewrite (untruncated_page _ _ Ht).
    apply elem_of_prefixes_of, default_folder_selected, Hd. }
  assert (Hcps : CommonPrefixes (list_objects_v2 (list_children root) (bucket w1))
                 = Some (prefixes_of (take maxKeysCeiling
                                        (selected (list_children root) (bucket w1))))).
  { unfold list_objects_v2. cbn [CommonPrefixes].
    change (page_size (list_children root)) with maxKeysCeiling.
    destruct (prefixes_of _) as [|p ps] eqn:E; [|reflexivity].
    specialize (Hsel "Health records" ltac:(left)). inversion Hsel. }
  assert (Hnone : missing_folders root w1 = []).
  { unfold missing_folders.
    apply List_filter_none.
    intros folder Hd. apply negb_false_iff, bool_decide_eq_true.
    apply elem_of_existingFolderNames. eexists _, _. split; [exact Hcps |].
    split; [exact (Hsel folder Hd) |].
    now rewrite (folder_name_of_common_prefix root folder (defaultFolders_no_slash _ Hd)). }
  split; [|split].
  - rewrite ensureDefaultFoldersExist_run, Hnone. split; reflexivity.
  - eexists. split; [exact Hcps |]. split; [|exact Hsel].
    change maxKeysCeiling with (page_size (list_children root)).
    rewrite (untruncated_page _ _ Ht). unfold selected. cbn.
    rewrite List_filter_true. apply roll_up_prefixes.
  - unfold w1. rewrite ensureDefaultFoldersExist_run. unfold outcome, world.
    cbn [fst snd]. split; [reflexivity |]. split.
    + rewrite sent_after_puts. cbn [with_sent sent]. now rewrite <- app_assoc.
    + intros folder Hm.
      apply (lookup_after_puts_placeholder _ _ (placeholder root folder)).
      * now apply list_elem_of_fmap_2.
      * apply Forall_fmap, Forall_forall. reflexivity.
Qed.

End SeedingTwice.

Lemma ensureDefaultFoldersExist_idempotent_witness :
  let w1 := world (ensureDefaultFoldersExist (cfg := s3_config) ""
                     (world_of [("notes.txt", 3%N); ("Legal documents/will.pdf", 8%N)])) in
  IsTruncated (list_objects_v2 (cfg := s3_config) (list_children "") (bucket w1)) = false /\
  ensureDefaultFoldersExist (cfg := s3_config) "" w1
  = (Returned tt, with_sent w1 (SentList (list_children ""))).
Proof.
  split; [vm_compute; reflexivity |].
  apply (ensureDefaultFoldersExist_idempotent (cfg := s3_config) ""
           (world_of [("notes.txt", 3%N); ("Legal documents/will.pdf", 8%N)])).
  vm_compute. reflexivity.
Defined.

(** C3, as stated, fails: the listing is one page of 1000 entries.  With
    999 objects in front of it, [Legal documents/] is the last entry of
    the first listing; the six placeholders of the first run push it to
    the second page, the second run does not see it and puts a
    placeholder that the first run had not put. *)
Lemma ensureDefaultFoldersExist_second_run_puts :
  let w0 := world_of (("Legal documents/will.pdf", 8%N) :: numbered "!" 999) in
  let w1 := world (ensureDefaultFoldersExist (cfg := s3_config) "" w0) in
  let w2 := world (ensureDefaultFoldersExist (cfg := s3_config) "" w1) in
  bucket w1 !! "Legal documents/" = None /\
  bucket w2 !! "Legal documents/" = Some {| stored_size := 0; stored_at := 12 |}.
Proof. vm_compute. split; reflexivity. Qed.

(** ** Copy (C5) *)



(** The example of the specification: [a/] copied to [b/]. *)
Example copyFileOrFolders_a_to_b :
  let r := copyFileOrFolders (cfg := s3_config) 2 "a/" "b/"
             (world_of [("a/x.txt", 4%N); ("a/sub/y.txt", 6%N)]) in
  outcome r = Returned tt /\
  (map_to_list (bucket (world r))).*1 ≡ₚ ["a/sub/y.txt"; "a/x.txt"; "b/sub/y.txt"; "b/x.txt"] /\
  stored_size <$> bucket (world r) !! "b/x.txt" = Some 4%N /\
  stored_size <$> bucket (world r) !! "b/sub/y.txt" = Some 6%N.
Proof.
  vm_compute. repeat split; reflexivity.
Qed.

(** C5, at the failing input: the destination [b$$/] is used as the
    replacement text of [replace], in which [$$] stands for one dollar, so
    [a/x.txt] is copied to [b$/x.txt] and nothing is put under [b$$/]. *)
Theorem copyFileOrFolders_dollar_destination :
  let r := copyFileOrFolders (cfg := s3_config) 2 "a/" "b$$/"
             (world_of [("a/x.txt", 4%N)]) in
  outcome r = Returned tt /\
  sent (world r)
  = [SentList (list_all "a/");
     SentCopy {| copy_CopySource := "documents/a/x.txt"; copy_Key := "b$/x.txt" |}] /\
  bucket (world r) !! "b$$/x.txt" = None /\
  stored_size <$> bucket (world r) !! "b$/x.txt" = Some 4%N.
Proof. vm_compute. repeat split; reflexivity. Qed.

(** The same through [renameFile]: the folder [a] renamed to [b$$$$]. *)
Example renameFile_dollar_folder :
  let r := renameFile (cfg := s3_config) 3 "a" "b$$$$" true ""
             (world_of [("a/", 0%N); ("a/x.txt", 4%N)]) in
  outcome r = Returned tt /\
  bucket (world r) !! "b$$$$/x.txt" = None /\
  stored_size <$> bucket (world r) !! "b$/x.txt" = Some 4%N.
Proof. vm_compute. repeat split; reflexivity. Qed.

(** *** Folders that fit in one page, copied to a destination without a
    dollar *)

Section CopyOnePage.
Context {cfg : Config}.






End CopyOnePage.

(** Pages are followed: with pages of two entries the three objects of
    [a/] take two listings, the second one after the token of the first. *)
Example copyFileOrFolders_two_pages :
  let two := {| bucketName := "documents";
                excludeRegex_test := fun _ => false;
                maxKeysCeiling := 2 |} in
  let r := copyFileOrFolders (cfg := two) 3 "a/" "b/"
             (world_of [("a/1", 1%N); ("a/2", 2%N); ("a/3", 3%N)]) in
  outcome r = Returned tt /\
  sent (world r)
  = [SentList (list_all "a/");
     SentCopy {| copy_CopySource := "documents/a/1"; copy_Key := "b/1" |};
     SentCopy {| copy_CopySource := "documents/a/2"; copy_Key := "b/2" |};
     SentList {| list_Prefix := "a/"; list_Delimiter := None; list_MaxKeys := None;
                 list_ContinuationToken := Some (ResumeAfter "a/2") |};
     SentCopy {| copy_CopySource := "documents/a/3"; copy_Key := "b/3" |}].
Proof. vm_compute. split; reflexivity. Qed.

(** * Further properties of the adapter *)

(** ** The validators *)

Lemma fileNameClass_stem (c : ascii) :
  class_matches false fileNameClass c = file_stem_char c.
Proof. each_ascii c. Qed.

Lemma dot_class (c : ascii) : class_matches false [CChar "."] c = true -> c = "."%char.
Proof. destruct c as [[] [] [] [] [] [] [] []]; vm_compute; congruence. Qed.

(** X1: [isValidFileName] accepts exactly the names whose trimmed form is
    a non-empty stem of word characters, commas, whitespace and hyphens,
    then a dot, then three letters. *)
Theorem isValidFileName_exactly (fileName : string) :
  isValidFileName fileName = true <->
  exists stem ext,
    Js.trim fileName = stem +:+ "." +:+ ext /\ stem <> "" /\
    Js.every file_stem_char stem = true /\
    Js.length ext = 3 /\ Js.every is_letter ext = true.
Proof.
  unfold isValidFileName. rewrite andb_true_iff, test_lang. unfold fileNameRegex.
  split.
  - intros [_ (stem & rest & -> & [Ts Hs]%lang_plus_class & Hr)%lang_seq_inv].
    apply lang_seq_inv in Hr as (d & ext & -> & Hd & He).
    apply lang_class_inv in Hd as (c & -> & ->%dot_class).
    apply lang_times_class in He as [L He].
    exists stem, ext. split; [reflexivity |].
    split; [now apply truthy_nonempty |].
    split; [now rewrite (every_ext _ (class_matches false fileNameClass))
              by (intros; symmetry; apply fileNameClass_stem) |].
    split; [exact L |].
    now rewrite (every_ext _ (class_matches false letterClass))
      by (intros; symmetry; apply letterClass_spec).
  - intros (stem & ext & E & Ns & Hs & L & He). split.
    + destruct fileName; [|reflexivity]. destruct stem; discriminate.
    + rewrite E. constructor.
      * apply lang_plus_class. split; [now apply truthy_nonempty |].
        now rewrite (every_ext _ file_stem_char) by apply fileNameClass_stem.
      * apply (lang_seq _ _ "." ext); [now constructor |].
        apply lang_times_class. split; [exact L |].
        now rewrite (every_ext _ is_letter) by apply letterClass_spec.
Qed.

(** X2: a folder name with one of the characters [\ ? * : < > | /] or a
    double quote anywhere in it, or with a period at the end of its
    trimmed form, is refused, and [createFolder] throws for it without
    touching the bucket. *)
Theorem createFolder_rejects_forbidden (folderName currentPrefix : string) (w : World) :
  Js.some is_forbidden folderName = true \/
  Js.last (Js.trim folderName) = Some "."%char ->
  isValidFolderName folderName = false /\
  createFolder folderName currentPrefix w = (Thrown (Error "Invalid folder name!"), w).
Proof.
  intros Hyp. pose proof (isValidFolderName_rejects_forbidden _ Hyp) as V.
  split; [exact V |]. now rewrite createFolder_run, V.
Qed.

Lemma createFolder_rejects_forbidden_witness :
  isValidFolderName "2024/bills" = false /\
  createFolder "2024/bills" "docs/" (world_of [])
  = (Thrown (Error "Invalid folder name!"), world_of []).
Proof.
  apply (createFolder_rejects_forbidden "2024/bills" "docs/" (world_of [])).
  left. reflexivity.
Defined.

(** ** Listing *)

Lemma endsWith_spec (s p : string) :
  Js.endsWith s p = true <-> exists a, s = a +:+ p.
Proof.
  induction s as [|c s IH].
  - cbn [Js.endsWith]. rewrite orb_false_r, String.eqb_eq. split.
    + intros <-. now exists "".
    + intros [a E]. symmetry in E. now apply append_eq_empty in E as [_ ->].
  - cbn [Js.endsWith]. rewrite orb_true_iff, String.eqb_eq, IH. split.
    + intros [<-|[a ->]]; [now exists "" | now exists (String c a)].
    + intros [[|d a] E]; [left; exact E | right].
      injection E as -> ->. now exists a.
Qed.

Lemma indexOf_slash_None (s : string) :
  Js.indexOf s "/" = None <-> Js.some (Ascii.eqb "/") s = false.
Proof.
  induction s as [|c s IH]; [split; reflexivity |].
  cbn [Js.indexOf Js.some]. rewrite startsWith_slash_cons.
  destruct (Ascii.eqb "/" c); [split; discriminate |]. cbn [orb].
  rewrite <- IH. destruct (Js.indexOf s "/"); split; (discriminate || reflexivity).
Qed.

(** A key without a slash after the prefix that ends with a slash is the
    prefix itself. *)
Lemma slash_ended_child (prefix rest : string) :
  Js.indexOf rest "/" = None -> Js.endsWith (prefix +:+ rest) "/" = true -> rest = "".
Proof.
  intros Hn [a E]%endsWith_spec. destruct rest as [|c rest]; [reflexivity |].
  destruct (string_snoc (String c rest)) as (m & z & Er); [discriminate |].
  rewrite Er in E, Hn. rewrite <- append_assoc in E.
  assert (Hz : Some z = Some "/"%char).
  { rewrite <- (last_snoc (prefix +:+ m) z), E. apply last_snoc. }
  injection Hz as ->. apply indexOf_slash_None in Hn.
  rewrite some_append in Hn. cbn in Hn. now rewrite orb_true_r in Hn.
Qed.

Lemma length_objects_prefixes (l : list Entry) :
  length (objects_of l) + length (prefixes_of l) = length l.
Proof.
  unfold objects_of, prefixes_of.
  induction l as [|e l IH]; [reflexivity |].
  destruct e; cbn [omap list_omap length]; lia.
Qed.

Lemma length_List_filter {A} (f : A -> bool) (l : list A) :
  length (List.filter f l) <= length l.
Proof. induction l as [|x l IH]; simpl; [lia |]. destruct (f x); simpl; lia. Qed.

Lemma classify_object prefix k o (s : ObjectSummary) :
  classify prefix (Some "/") (k, o) = EObject s ->
  s = summary_of (k, o) /\ Js.indexOf (Js.slice (Js.length prefix) k) "/" = None.
Proof.
  unfold classify. cbn [fst].
  destruct (Js.indexOf (Js.slice (Js.length prefix) k) "/"); [discriminate |].
  now intros [= <-].
Qed.

Section ListingMore.
Context {cfg : Config}.

Lemma selected_children_inv prefix (m : gmap string StoredObject) (e : Entry) :
  e ∈ selected (list_children prefix) m ->
  exists k o, m !! k = Some o /\ Js.startsWith k prefix = true /\
              classify prefix (Some "/") (k, o) = e.
Proof.
  unfold selected. cbn. intros [_ Hin]%elem_of_List_filter.
  apply elem_of_roll_up, list_elem_of_fmap in Hin as ([k o] & E & Hin).
  apply elem_of_objects_under in Hin as [Hk Hp]. eauto.
Qed.

Lemma Contents_children prefix (m : gmap string StoredObject) cs (s : ObjectSummary) :
  Contents (list_objects_v2 (list_children prefix) m) = Some cs ->
  s ∈ cs ->
  exists o, m !! Key s = Some o /\ s = summary_of (Key s, o) /\
            exists rest, Key s = prefix +:+ rest /\ Js.indexOf rest "/" = None.
Proof.
  unfold list_objects_v2. cbn [Contents]. intros [<- _]%if_any_Some Hin.
  apply elem_of_objects_of, elem_of_take_elem, selected_children_inv in Hin
    as (k & o & Hk & Hp & Hc).
  apply classify_object in Hc as [-> Hn]. cbn [summary_of Key fst].
  exists o. split; [exact Hk |]. split; [reflexivity |].
  apply startsWith_spec in Hp as [rest ->]. exists rest.
  split; [reflexivity |]. now rewrite slice_append in Hn.
Qed.

(** X3: every object entry that [listContents] returns is an immediate
    child of the prefix: its path is the prefix followed by its name, the
    name has no slash, the bucket holds an object of that size and date
    at the path, and the exclusion pattern does not match the path. *)
Theorem listContents_object_entries (prefix : string) (w : World) :
  exists l,
    outcome (listContents prefix w) = Returned l /\
    Forall (fun e =>
              object_path e = prefix +:+ object_name e /\
              Js.indexOf (object_name e) "/" = None /\
              excludeRegex_test (object_path e) = false /\
              bucket w !! object_path e
              = Some {| stored_size := object_size e;
                        stored_at := object_lastModified e |})
           (objects l).
Proof.
  exists (listContents_view prefix (list_objects_v2 (list_children prefix) (bucket w))).
  split; [reflexivity |].
  apply Forall_forall. intros e. unfold listContents_view. cbn [objects].
  intros (s & -> & Hs)%list_elem_of_fmap.
  cbn [object_path object_name object_size object_lastModified].
  apply elem_of_List_filter in Hs as [Hx Hs].
  destruct (Contents _) as [cs|] eqn:Ec; [|inversion Hs].
  apply elem_of_List_filter in Hs as [_ Hs].
  destruct (Contents_children _ _ _ _ Ec Hs) as (o & Hk & Es & rest & Er & Hn).
  rewrite Er, slice_append. repeat split; [exact Hn | | ].
  - rewrite <- Er. now apply negb_true_iff in Hx.
  - rewrite <- Er, Hk, Es. now destruct o.
Qed.

(** X4: [listContents] reads one page: the folders and the objects it
    returns are together at most a page of entries, however many children
    the prefix has. *)
Theorem listContents_one_page (prefix : string) (w : World) :
  exists l,
    outcome (listContents prefix w) = Returned l /\
    length (folders l) + length (objects l) <= maxKeysCeiling.
Proof.
  exists (listContents_view prefix (list_objects_v2 (list_children prefix) (bucket w))).
  split; [reflexivity |].
  unfold listContents_view, list_objects_v2.
  cbn [folders objects Contents CommonPrefixes].
  change (page_size (list_children prefix)) with maxKeysCeiling.
  set (page := take maxKeysCeiling _).
  assert (Hp : length page <= maxKeysCeiling) by (unfold page; rewrite length_take; lia).
  pose proof (length_objects_prefixes page) as Hsum.
  assert (Hf : length (match if_any (prefixes_of page) with
                       | Some cps =>
                           (fun Prefix =>
                              {| folder_name := Js.slice (Js.length prefix) Prefix;
                                 folder_path := Prefix;
                                 folder_url := "/?prefix=" +:+ Prefix |})
                           <$> List.filter (fun Prefix => negb (excludeRegex_test Prefix)) cps
                       | None => []
                       end) <= length (prefixes_of page)).
  { destruct (prefixes_of page) as [|p ps]; [simpl; lia |].
    cbn [if_any]. rewrite length_fmap. apply length_List_filter. }
  assert (Ho : length (List.filter (fun o => negb (excludeRegex_test (Key o)))
                         (match if_any (objects_of page) with
                          | Some cs =>
                              List.filter
                                (fun o => negb ((Size o =? 0)%N && Js.endsWith (Key o) "/")) cs
                          | None => []
                          end)) <= length (objects_of page)).
  { etransitivity; [apply length_List_filter |].
    destruct (objects_of page) as [|o os]; [simpl; lia |].
    cbn [if_any]. apply length_List_filter. }
  rewrite length_fmap. lia.
Qed.

(** X5: when the listing is complete and the exclusion pattern matches
    nothing, [listContents] accounts for every object under the prefix:
    its key is under the path of a returned folder, or it is the path of
    a returned object, or it is the zero-byte placeholder of the listed
    prefix itself. *)
Theorem listContents_complete (prefix : string) (w : World) (k : string) (o : StoredObject) :
  (forall s, excludeRegex_test s = false) ->
  IsTruncated (list_objects_v2 (list_children prefix) (bucket w)) = false ->
  bucket w !! k = Some o -> Js.startsWith k prefix = true ->
  exists l,
    outcome (listContents prefix w) = Returned l /\
    ((exists f, f ∈ folders l /\ Js.startsWith k (folder_path f) = true) \/
     (exists e, e ∈ objects l /\ object_path e = k) \/
     (k = prefix /\ stored_size o = 0%N /\ Js.endsWith prefix "/" = true)).
Proof.
  intros Hx Ht Hk Hp.
  exists (listContents_view prefix (list_objects_v2 (list_children prefix) (bucket w))).
  split; [reflexivity |].
  pose proof (selected_children_intro prefix (bucket w) k o _ Hk Hp eq_refl) as Hin.
  rewrite <- (untruncated_page _ _ Ht) in Hin.
  change (page_size (list_children prefix)) with maxKeysCeiling in Hin.
  unfold listContents_view, list_objects_v2.
  cbn [folders objects Contents CommonPrefixes].
  change (page_size (list_children prefix)) with maxKeysCeiling.
  set (page := take maxKeysCeiling _) in *.
  destruct (classify prefix (Some "/") (k, o)) as [s|cp] eqn:Ec.
  - apply classify_object in Ec as [-> Hn].
    apply elem_of_objects_of in Hin.
    destruct (objects_of page) as [|s0 ss] eqn:Eo; [inversion Hin |].
    cbn [if_any].
    destruct ((stored_size o =? 0)%N && Js.endsWith k "/") eqn:Eh.
    + right. right. apply andb_true_iff in Eh as [Hz He].
      apply N.eqb_eq in Hz. apply startsWith_spec in Hp as [rest ->].
      rewrite slice_append in Hn.
      pose proof (slash_ended_child _ _ Hn He) as ->.
      rewrite append_empty_r in *. auto.
    + right. left. eexists. split.
      * apply list_elem_of_fmap_2, elem_of_List_filter.
        split; [now rewrite Hx |].
        apply elem_of_List_filter. split; [|exact Hin].
        cbn [summary_of Size Key fst snd]. now rewrite Eh.
      * reflexivity.
  - left. apply elem_of_prefixes_of in Hin.
    destruct (prefixes_of page) as [|p ps] eqn:Eo; [inversion Hin |].
    cbn [if_any]. eexists. split.
    + apply list_elem_of_fmap_2, elem_of_List_filter.
      split; [now rewrite Hx | exact Hin].
    + cbn [folder_path].
      now destruct (classify_common_prefix _ _ _ _ Hp Ec) as (_ & _ & _ & ?).
Qed.

End ListingMore.

Lemma listContents_complete_witness :
  exists l,
    outcome (listContents (cfg := s3_config) "docs/"
               (world_of [("docs/", 0%N); ("docs/a.txt", 3%N); ("docs/sub/b.txt", 4%N)]))
    = Returned l /\
    ((exists f, f ∈ folders l /\ Js.startsWith "docs/sub/b.txt" (folder_path f) = true) \/
     (exists e, e ∈ objects l /\ object_path e = "docs/sub/b.txt") \/
     ("docs/sub/b.txt" = "docs/" /\ stored_size {| stored_size := 4; stored_at := 0 |} = 0%N /\
      Js.endsWith "docs/" "/" = true)).
Proof.
  apply (listContents_complete (cfg := s3_config) "docs/"
           (world_of [("docs/", 0%N); ("docs/a.txt", 3%N); ("docs/sub/b.txt", 4%N)])
           "docs/sub/b.txt" {| stored_size := 4; stored_at := 0 |}).
  - reflexivity.
  - vm_compute. reflexivity.
  - reflexivity.
  - reflexivity.
Defined.

Lemma encodeURIComponent_chars (s : string) :
  Js.every uri_component_char (Js.encodeURIComponent s) = true.
Proof.
  induction s as [|c s IH]; [reflexivity |].
  cbn [Js.encodeURIComponent]. rewrite every_append, IH, andb_true_r.
  destruct c as [[] [] [] [] [] [] [] []]; vm_compute; reflexivity.
Qed.

Lemma encodeURIComponent_unreserved (s : string) :
  Js.every Js.uri_unreserved s = true -> Js.encodeURIComponent s = s.
Proof.
  induction s as [|c s IH]; [reflexivity |].
  cbn [Js.every Js.encodeURIComponent]. intros [Hc Hs]%andb_true_iff.
  now rewrite Hc, IH.
Qed.

(** X6: the URL of every object entry is the address of the bucket
    followed by the encoded key, in which only unreserved characters and
    percent signs occur (a slash of the key is escaped); a key of
    unreserved characters is left as it is. *)
Theorem listContents_object_urls {cfg : Config} (prefix : string) (data : ListObjectsV2Output) :
  Forall (fun e =>
            exists enc,
              object_url e = "https://" +:+ bucketName +:+ ".s3.amazonaws.com/" +:+ enc /\
              Js.every uri_component_char enc = true /\
              Js.some (Ascii.eqb "/") enc = false /\
              (Js.every Js.uri_unreserved (object_path e) = true -> enc = object_path e))
         (objects (listContents_view prefix data)).
Proof.
  apply Forall_forall. intros e. unfold listContents_view. cbn [objects].
  intros (s & -> & _)%list_elem_of_fmap. cbn [object_url object_path].
  exists (Js.encodeURIComponent (Key s)). split; [reflexivity |].
  split; [apply encodeURIComponent_chars |].
  split; [|apply encodeURIComponent_unreserved].
  apply negb_true_iff. rewrite <- every_negb_some.
  apply (every_impl uri_component_char); [|apply encodeURIComponent_chars].
  intros c. destruct c as [[] [] [] [] [] [] [] []]; vm_compute; congruence.
Qed.

(** ** Default folders *)

Section SeedingMore.
Context {cfg : Config}.

Lemma put_calls_app (l k : list Command) : put_calls (l ++ k) = put_calls l + put_calls k.
Proof. unfold put_calls. now rewrite List.filter_app, length_app. Qed.

Lemma mutating_calls_app (l k : list Command) :
  mutating_calls (l ++ k) = mutating_calls l + mutating_calls k.
Proof. unfold mutating_calls. now rewrite List.filter_app, length_app. Qed.

Lemma mutating_calls_puts (cs : list PutObjectCommand) :
  mutating_calls (SentPut <$> cs) = 0.
Proof. induction cs as [|c cs IH]; [reflexivity | exact IH]. Qed.

Lemma put_calls_puts (cs : list PutObjectCommand) : put_calls (SentPut <$> cs) = length cs.
Proof.
  induction cs as [|c cs IH]; [reflexivity |].
  rewrite fmap_cons. unfold put_calls in *. simpl. now rewrite IH.
Qed.

(** X7: whatever the bucket holds and however long the listing is,
    [ensureDefaultFoldersExist] returns, and afterwards every canonical
    folder has a key under [root + name + "/"]; no key of the bucket is
    lost, an object that is not one of the seven placeholders is left as
    it was, at most seven placeholders are put and nothing is copied or
    deleted. *)
Theorem ensureDefaultFoldersExist_achieves (root : string) (w : World) :
  let w1 := world (ensureDefaultFoldersExist root w) in
  outcome (ensureDefaultFoldersExist root w) = Returned tt /\
  (forall folder, folder ∈ defaultFolders ->
     exists k, is_Some (bucket w1 !! k) /\
               Js.startsWith k (root +:+ folder +:+ "/") = true) /\
  (forall k, is_Some (bucket w !! k) -> is_Some (bucket w1 !! k)) /\
  (forall k, (forall folder, folder ∈ defaultFolders -> k <> root +:+ folder +:+ "/") ->
     bucket w1 !! k = bucket w !! k) /\
  put_calls (sent w1) <= put_calls (sent w) + 7 /\
  mutating_calls (sent w1) = mutating_calls (sent w).
Proof.
  intros w1. split; [now rewrite ensureDefaultFoldersExist_run |]. split.
  { intros folder Hd.
    destruct (selected_children_inv _ _ _ (default_folder_selected root w folder Hd))
      as (k & o & Hk & Hp & Hc).
    destruct (classify_common_prefix _ _ _ _ Hp Hc) as (seg & _ & _ & Hs).
    exists k. split; [now exists o | exact Hs]. }
  unfold w1. rewrite ensureDefaultFoldersExist_run. unfold world. cbn [snd].
  split; [|split; [|split]].
  - intros k Hk. now apply lookup_after_puts_kept.
  - intros k Hne. rewrite lookup_after_puts_other; [reflexivity |].
    intros (c & -> & (folder & -> & Hf)%list_elem_of_fmap)%list_elem_of_fmap.
    apply (Hne folder); [|reflexivity].
    unfold missing_folders in Hf. now apply elem_of_List_filter in Hf as [_ ?].
  - rewrite sent_after_puts. cbn [with_sent sent].
    rewrite !put_calls_app, put_calls_puts, length_fmap. cbn.
    unfold missing_folders.
    pose proof (length_List_filter
      (fun folder => negb (bool_decide
         (folder ∈ existingFolderNames root
                     (list_objects_v2 (list_children root) (bucket w)))))
      defaultFolders) as Hl.
    cbn [length defaultFolders] in Hl. cbn in Hl |- *. lia.
  - rewrite sent_after_puts. cbn [with_sent sent].
    rewrite !mutating_calls_app, mutating_calls_puts. cbn. lia.
Qed.

End SeedingMore.

(** ** Folder creation, then listing *)

Lemma inner_char_not_slash (c : ascii) : inner_char c = true -> negb (Ascii.eqb "/" c) = true.
Proof. destruct c as [[] [] [] [] [] [] [] []]; vm_compute; congruence. Qed.

Lemma accepted_folder_name_no_slash (t : string) :
  accepted_folder_name t = true -> Js.indexOf t "/" = None.
Proof.
  unfold accepted_folder_name.
  intros [[[_ I]%andb_true_iff _]%andb_true_iff _]%andb_true_iff.
  apply indexOf_slash_None, negb_true_iff. rewrite <- every_negb_some.
  exact (every_impl _ _ _ inner_char_not_slash I).
Qed.

(** X8: a folder that [createFolder] has created is listed: when the
    listing of the parent is complete and the exclusion pattern does not
    match the new key, [listContents] of the parent returns a folder entry
    named [trim(folderName) + "/"] with the new key as its path. *)
Theorem createFolder_then_listContents {cfg : Config} (folderName currentPrefix : string)
    (w : World) :
  let fullPath := currentPrefix +:+ Js.trim folderName +:+ "/" in
  let w1 := world (createFolder folderName currentPrefix w) in
  isValidFolderName folderName = true ->
  IsTruncated (list_objects_v2 (list_children currentPrefix) (bucket w1)) = false ->
  excludeRegex_test fullPath = false ->
  exists l,
    outcome (listContents currentPrefix w1) = Returned l /\
    {| folder_name := Js.trim folderName +:+ "/";
       folder_path := fullPath;
       folder_url := "/?prefix=" +:+ fullPath |} ∈ folders l.
Proof.
  intros fullPath w1 V Ht Hx.
  exists (listContents_view currentPrefix
            (list_objects_v2 (list_children currentPrefix) (bucket w1))).
  split; [reflexivity |].
  assert (Hn : Js.indexOf (Js.trim folderName) "/" = None).
  { apply accepted_folder_name_no_slash. now rewrite <- isValidFolderName_spec. }
  assert (Hk : bucket w1 !! fullPath
               = Some {| stored_size := 0; stored_at := clock w |}).
  { unfold w1. rewrite createFolder_run, V. unfold world. cbn [snd bucket].
    apply lookup_insert_eq. }
  pose proof (selected_children_intro currentPrefix (bucket w1) fullPath _ _ Hk
                (startsWith_append _ _) (classify_placeholder _ _ _ Hn)) as Hin.
  rewrite <- (untruncated_page _ _ Ht) in Hin.
  apply elem_of_prefixes_of in Hin.
  unfold listContents_view, list_objects_v2. cbn [folders CommonPrefixes].
  destruct (prefixes_of _) as [|p ps] eqn:Ep; [inversion Hin |].
  cbn [if_any].
  replace (Js.trim folderName +:+ "/")
    with (Js.slice (Js.length currentPrefix) fullPath)
    by (unfold fullPath; apply slice_append).
  apply (list_elem_of_fmap_2
           (fun Prefix => {| folder_name := Js.slice (Js.length currentPrefix) Prefix;
                             folder_path := Prefix;
                             folder_url := "/?prefix=" +:+ Prefix |})).
  apply elem_of_List_filter. split; [now rewrite Hx | exact Hin].
Qed.

Lemma createFolder_then_listContents_witness :
  exists l,
    outcome (listContents (cfg := s3_config) "docs/"
               (world (createFolder " Tax 2024 " "docs/" (world_of [("docs/a.txt", 3%N)]))))
    = Returned l /\
    {| folder_name := Js.trim " Tax 2024 " +:+ "/";
       folder_path := "docs/" +:+ Js.trim " Tax 2024 " +:+ "/";
       folder_url := "/?prefix=" +:+ "docs/" +:+ Js.trim " Tax 2024 " +:+ "/" |} ∈ folders l.
Proof.
  apply (createFolder_then_listContents (cfg := s3_config) " Tax 2024 " "docs/"
           (world_of [("docs/a.txt", 3%N)])).
  - reflexivity.
  - vm_compute. reflexivity.
  - reflexivity.
Defined.

(** ** Recursive deletion *)

Section DeletionMore.
Context {cfg : Config}.

Lemma batch_within_round prefix (w : World) :
  0 < maxKeysCeiling -> 0 < count_under prefix (bucket w) ->
  Forall (batch_within prefix) (sent w) ->
  Forall (batch_within prefix) (sent (after_delete_round prefix w)).
Proof.
  intros HL Hn Hw. unfold after_delete_round. cbn [sent].
  apply Forall_app. split; [exact Hw |].
  repeat constructor; cbn [delete_Objects].
  - rewrite length_fmap, length_take. unfold count_under in Hn. lia.
  - rewrite length_fmap, length_take. lia.
  - apply Forall_forall. intros k ([k' o] & -> & Hin)%list_elem_of_fmap.
    apply elem_of_take_elem, elem_of_objects_under in Hin. tauto.
Qed.

(** X9: every batch deletion that [deleteFolderAndContents] sends names
    at least one key and at most a page of keys, and only keys that start
    with the prefix; this holds at every point of the recursion. *)
Theorem deleteFolderAndContents_batches (fuel : nat) (prefix : string) (w : World) :
  0 < maxKeysCeiling ->
  Forall (batch_within prefix) (sent w) ->
  Forall (batch_within prefix) (sent (world (deleteFolderAndContents fuel prefix w))).
Proof.
  intros HL. revert w. induction fuel as [|fuel IH]; intros w Hw; [exact Hw |].
  destruct (count_under prefix (bucket w)) as [|n] eqn:En.
  - rewrite (deleteFolderAndContents_nothing _ _ _ En). unfold world.
    cbn [snd with_sent sent]. apply Forall_app. split; [exact Hw |].
    repeat constructor.
  - rewrite deleteFolderAndContents_round by (exact HL || lia).
    pose proof (batch_within_round prefix w HL ltac:(lia) Hw) as Hr.
    destruct (_ <=? _); [exact Hr | now apply IH].
Qed.

(** X10: after a recursive deletion that had fuel for every object under
    the prefix, [listContents] of the prefix returns no folder and no
    object. *)
Theorem deleteFolderAndContents_then_listContents (fuel : nat) (prefix : string) (w : World) :
  0 < maxKeysCeiling ->
  count_under prefix (bucket w) < fuel ->
  outcome (listContents prefix (world (deleteFolderAndContents fuel prefix w)))
  = Returned {| folders := []; objects := [] |}.
Proof.
  intros HL Hf.
  destruct (deleteFolderAndContents_run fuel prefix w HL Hf) as (_ & Hb & _).
  set (w' := world (deleteFolderAndContents fuel prefix w)) in *.
  assert (Hz : objects_under prefix (bucket w') = []).
  { apply nil_length_inv. apply (proj2 (count_under_zero prefix (bucket w'))).
    intros k Hp. now rewrite Hb, Hp. }
  rewrite listContents_run. unfold outcome. cbn [fst].
  unfold listContents_view, list_objects_v2, selected.
  cbn [list_children list_Prefix list_Delimiter list_ContinuationToken
       Contents CommonPrefixes].
  rewrite Hz. cbn. now rewrite take_nil.
Qed.

(** X11: recursive deletion of the empty prefix, with fuel for every
    object, empties the bucket. *)
Theorem deleteFolderAndContents_root_empties (fuel : nat) (w : World) :
  0 < maxKeysCeiling ->
  count_under "" (bucket w) < fuel ->
  bucket (world (deleteFolderAndContents fuel "" w)) = ∅.
Proof.
  intros HL Hf.
  destruct (deleteFolderAndContents_run fuel "" w HL Hf) as (_ & Hb & _).
  apply map_eq. intros k. rewrite Hb, lookup_empty. now destruct k.
Qed.

(** X12: [checkIfFileExists] throws exactly when some object has a key
    that starts with the key it is given (an equal key or a longer one),
    returns exactly when none has, and leaves the bucket as it is. *)
Theorem checkIfFileExists_exactly (key : string) (w : World) :
  0 < maxKeysCeiling ->
  (outcome (checkIfFileExists key w)
   = Thrown (Error "The destination file or folder already exists.")
   <-> exists k, is_Some (bucket w !! k) /\ Js.startsWith k key = true) /\
  (outcome (checkIfFileExists key w) = Returned tt
   <-> forall k, Js.startsWith k key = true -> bucket w !! k = None) /\
  world (checkIfFileExists key w)
  = with_sent w (SentList {| list_Prefix := key; list_Delimiter := None;
                             list_MaxKeys := Some 1; list_ContinuationToken := None |}).
Proof.
  intros HL. destruct (count_under key (bucket w)) as [|n] eqn:En.
  - rewrite (checkIfFileExists_free _ _ En). unfold outcome, world. cbn [fst snd].
    pose proof (proj1 (count_under_zero key (bucket w)) En) as Hz.
    split; [|split; [|reflexivity]].
    + split; [discriminate |]. intros (k & [o Hk] & Hp).
      rewrite (Hz k Hp) in Hk. discriminate.
    + split; [intros _; exact Hz | reflexivity].
  - rewrite (checkIfFileExists_conflict _ _ HL) by lia.
    unfold outcome, world. cbn [fst snd].
    split; [|split; [|reflexivity]].
    + split; [intros _ | reflexivity].
      destruct (objects_under key (bucket w)) as [|[k o] l] eqn:E;
        [unfold count_under in En; rewrite E in En; discriminate |].
      assert (Hin : (k, o) ∈ objects_under key (bucket w)) by (rewrite E; left).
      apply elem_of_objects_under in Hin as [Hk Hp]. exists k. eauto.
    + split; [discriminate |]. intros Hz.
      apply (proj2 (count_under_zero key (bucket w))) in Hz. lia.
Qed.

End DeletionMore.

Lemma deleteFolderAndContents_batches_witness :
  Forall (batch_within (cfg := s3_config) "docs/")
    (sent (world (deleteFolderAndContents (cfg := s3_config) 3 "docs/"
                    (world_of [("docs/a.txt", 3%N); ("docs/b.txt", 4%N)])))).
Proof.
  apply (deleteFolderAndContents_batches (cfg := s3_config) 3 "docs/"
           (world_of [("docs/a.txt", 3%N); ("docs/b.txt", 4%N)])).
  - apply Nat.ltb_lt. reflexivity.
  - constructor.
Defined.

Lemma deleteFolderAndContents_then_listContents_witness :
  outcome (listContents (cfg := s3_config) "docs/"
             (world (deleteFolderAndContents (cfg := s3_config) 3 "docs/"
                       (world_of [("docs/a.txt", 3%N); ("docs/sub/b.txt", 4%N); ("x", 1%N)]))))
  = Returned {| folders := []; objects := [] |}.
Proof.
  apply (deleteFolderAndContents_then_listContents (cfg := s3_config) 3 "docs/"
           (world_of [("docs/a.txt", 3%N); ("docs/sub/b.txt", 4%N); ("x", 1%N)])).
  - apply Nat.ltb_lt. reflexivity.
  - apply Nat.ltb_lt. vm_compute. reflexivity.
Defined.

Lemma deleteFolderAndContents_root_empties_witness :
  bucket (world (deleteFolderAndContents (cfg := s3_config) 3 ""
                   (world_of [("docs/a.txt", 3%N); ("x", 1%N)]))) = ∅.
Proof.
  apply (deleteFolderAndContents_root_empties (cfg := s3_config) 3
           (world_of [("docs/a.txt", 3%N); ("x", 1%N)])).
  - apply Nat.ltb_lt. reflexivity.
  - apply Nat.ltb_lt. vm_compute. reflexivity.
Defined.

Lemma checkIfFileExists_exactly_witness :
  (outcome (checkIfFileExists (cfg := s3_config) "report.pdf"
              (world_of [("report.pdf.bak", 3%N)]))
   = Thrown (Error "The destination file or folder already exists.")
   <-> exists k, is_Some (bucket (world_of [("report.pdf.bak", 3%N)]) !! k) /\
                 Js.startsWith k "report.pdf" = true) /\
  (outcome (checkIfFileExists (cfg := s3_config) "report.pdf"
              (world_of [("report.pdf.bak", 3%N)])) = Returned tt
   <-> forall k, Js.startsWith k "report.pdf" = true ->
                 bucket (world_of [("report.pdf.bak", 3%N)]) !! k = None) /\
  world (checkIfFileExists (cfg := s3_config) "report.pdf"
           (world_of [("report.pdf.bak", 3%N)]))
  = with_sent (world_of [("report.pdf.bak", 3%N)])
      (SentList {| list_Prefix := "report.pdf"; list_Delimiter := None;
                   list_MaxKeys := Some 1; list_ContinuationToken := None |}).
Proof.
  apply (checkIfFileExists_exactly (cfg := s3_config) "report.pdf"
           (world_of [("report.pdf.bak", 3%N)])).
  apply Nat.ltb_lt. reflexivity.
Defined.

(** ** Copy *)

Lemma only_copies_refl (w : World) : only_copies w w.
Proof. repeat split; auto. Qed.

Lemma only_copies_trans (w1 w2 w3 : World) :
  only_copies w1 w2 -> only_copies w2 w3 -> only_copies w1 w3.
Proof.
  intros (K1 & D1 & P1) (K2 & D2 & P2). repeat split; [auto | congruence | congruence].
Qed.

Lemma only_copies_bind {A B} (m : M A) (k : A -> M B) (w : World) :
  only_copies w (world (m w)) ->
  (forall a w', only_copies w' (world (k a w'))) ->
  only_copies w (world (bind m k w)).
Proof.
  intros Hm Hk. unfold bind. destruct (m w) as [[a|e|] w1]; unfold world in *;
    cbn [snd] in *; [|exact Hm | exact Hm].
  eapply only_copies_trans; [exact Hm | apply Hk].
Qed.

Lemma only_copies_for_of {A} (l : list A) (body : A -> M unit) (w : World) :
  (forall x w', only_copies w' (world (body x w'))) ->
  only_copies w (world (for_of l body w)).
Proof.
  intros Hb. revert w. induction l as [|x l IH]; intros w; [apply only_copies_refl |].
  cbn [for_of]. apply only_copies_bind; [apply Hb | intros _ w'; apply IH].
Qed.

Section CopyMore.
Context {cfg : Config}.

Lemma only_copies_with_sent_list (w : World) (c : ListObjectsV2Command) :
  only_copies w (with_sent w (SentList c)).
Proof.
  unfold only_copies, with_sent. cbn [bucket sent].
  rewrite delete_calls_app, put_calls_app. cbn. repeat split; (auto || lia).
Qed.

Lemma only_copies_send_list (c : ListObjectsV2Command) (w : World) :
  only_copies w (world (send_list c w)).
Proof. rewrite send_list_run. apply only_copies_with_sent_list. Qed.

Lemma only_copies_send_copy (c : CopyObjectCommand) (w : World) :
  only_copies w (world (send_copy c w)).
Proof.
  unfold send_copy, bind, log, world.
  destruct (source_key (copy_CopySource c)) as [k|]; cbn [snd with_sent bucket];
    [destruct (bucket w !! k) as [o|]|];
    unfold only_copies; cbn [snd with_sent bucket sent];
    rewrite delete_calls_app, put_calls_app; cbn; repeat split; try (auto || lia).
  intros k' Hk'. rewrite lookup_insert. destruct (decide _); [eauto | exact Hk'].
Qed.

Lemma only_copies_defined {A} (o : option A) (what : string) (w : World) :
  only_copies w (world (defined o what w)).
Proof. destruct o; apply only_copies_refl. Qed.

Lemma only_copies_loop (fuel : nat) (src dst : string) (t : option ContinuationToken)
    (w : World) :
  only_copies w (world (copyFolderContents_loop fuel src dst t w)).
Proof.
  revert t w. induction fuel as [|fuel IH]; intros t w; [apply only_copies_refl |].
  cbn [copyFolderContents_loop].
  apply only_copies_bind; [apply only_copies_send_list | intros out w1].
  apply only_copies_bind; [apply only_copies_defined | intros contents w2].
  apply only_copies_bind.
  - apply only_copies_for_of. intros x w'. apply only_copies_send_copy.
  - intros _ w3. destruct (NextContinuationToken out);
      [apply IH | apply only_copies_refl].
Qed.

(** X13: whatever its arguments and however it ends, [copyFileOrFolders]
    loses no key of the bucket, puts no placeholder and sends no batch
    deletion. *)
Theorem copyFileOrFolders_only_copies (fuel : nat) (sourceKey destinationKey : string)
    (w : World) :
  let w' := world (copyFileOrFolders fuel sourceKey destinationKey w) in
  (forall k, is_Some (bucket w !! k) -> is_Some (bucket w' !! k)) /\
  delete_calls (sent w') = delete_calls (sent w) /\
  put_calls (sent w') = put_calls (sent w).
Proof.
  unfold copyFileOrFolders.
  destruct (Js.endsWith sourceKey "/");
    [apply only_copies_loop | apply only_copies_send_copy].
Qed.


(** X15: the copy of a folder under which the bucket holds nothing
    throws a [TypeError] after its listing (the response has no
    [Contents] to iterate over) and changes nothing. *)
Theorem copyFileOrFolders_empty_folder (fuel : nat) (sourceKey destinationKey : string)
    (w : World) :
  Js.endsWith sourceKey "/" = true ->
  count_under sourceKey (bucket w) = 0 ->
  copyFileOrFolders (S fuel) sourceKey destinationKey w
  = (Thrown (TypeError "listedObjects.Contents is not iterable"),
     with_sent w (SentList (list_all sourceKey))).
Proof.
  intros Hs Hn. unfold copyFileOrFolders. rewrite Hs.
  unfold copyFolderContents. cbn [copyFolderContents_loop].
  rewrite bind_send_list, Contents_plain.
  unfold count_under in Hn. apply nil_length_inv in Hn. rewrite Hn.
  now rewrite take_nil.
Qed.

End CopyMore.


Lemma copyFileOrFolders_empty_folder_witness :
  copyFileOrFolders (cfg := s3_config) 1 "empty/" "copy/" (world_of [("a.txt", 3%N)])
  = (Thrown (TypeError "listedObjects.Contents is not iterable"),
     with_sent (world_of [("a.txt", 3%N)]) (SentList (list_all "empty/"))).
Proof.
  apply (copyFileOrFolders_empty_folder (cfg := s3_config) 0 "empty/" "copy/"
           (world_of [("a.txt", 3%N)])); reflexivity.
Defined.


(** ** Rename *)

Section RenameMore.
Context {cfg : Config}.





(** X18: the rename of a folder under which the bucket holds nothing
    (an empty or a missing folder) passes the check and throws a
    [TypeError] at the loop over the listing, whose [Contents] is
    undefined; the bucket is as it was and nothing is copied or deleted. *)
Theorem renameFile_empty_folder (fuel : nat) (oldKey newKey currentPrefix : string)
    (w : World) :
  Js.truthy oldKey = true -> Js.truthy newKey = true -> oldKey <> newKey ->
  isValidFolderName newKey = true ->
  count_under (currentPrefix +:+ newKey +:+ "/") (bucket w) = 0 ->
  count_under (currentPrefix +:+ oldKey +:+ "/") (bucket w) = 0 ->
  outcome (renameFile fuel oldKey newKey true currentPrefix w)
  = Thrown (TypeError "listedObjects.Contents is not iterable") /\
  bucket (world (renameFile fuel oldKey newKey true currentPrefix w)) = bucket w /\
  mutating_calls (sent (world (renameFile fuel oldKey newKey true currentPrefix w)))
  = mutating_calls (sent w).
Proof.
  intros To Tn Hne V Hfree Hold.
  assert (E : renameFile fuel oldKey newKey true currentPrefix w
              = (Thrown (TypeError "listedObjects.Contents is not iterable"),
                 with_sent
                   (with_sent w
                      (SentList {| list_Prefix := currentPrefix +:+ newKey +:+ "/";
                                   list_Delimiter := None; list_MaxKeys := Some 1;
                                   list_ContinuationToken := None |}))
                   (SentList (list_all (currentPrefix +:+ oldKey +:+ "/"))))).
  { unfold renameFile. rewrite To, Tn. cbn [negb orb].
    apply String.eqb_neq in Hne. rewrite Hne, V. cbn [negb].
    unfold bind at 1. unfold bind at 1.
    rewrite (checkIfFileExists_free _ _ Hfree).
    rewrite bind_send_list, Contents_plain. cbn [with_sent bucket].
    unfold count_under in Hold. apply nil_length_inv in Hold. rewrite Hold.
    now rewrite take_nil. }
  rewrite E. unfold outcome, world. cbn [fst snd with_sent bucket sent].
  repeat split. rewrite !mutating_calls_app. cbn. lia.
Qed.

End RenameMore.


(** The file [a] renamed to [a.txt]: the copy is deleted with the
    original, because its key starts with the old key. *)
Example renameFile_extension_added :
  let r := renameFile (cfg := s3_config) 4 "a" "a.txt" false ""
             (world_of [("a", 5%N); ("b", 7%N)]) in
  outcome r = Returned tt /\ (map_to_list (bucket (world r))).*1 = ["b"].
Proof. vm_compute. split; reflexivity. Qed.


Lemma renameFile_empty_folder_witness :
  outcome (renameFile (cfg := s3_config) 1 "old" "new" true "docs/"
             (world_of [("docs/a.txt", 7%N)]))
  = Thrown (TypeError "listedObjects.Contents is not iterable") /\
  bucket (world (renameFile (cfg := s3_config) 1 "old" "new" true "docs/"
                   (world_of [("docs/a.txt", 7%N)])))
  = bucket (world_of [("docs/a.txt", 7%N)]) /\
  mutating_calls (sent (world (renameFile (cfg := s3_config) 1 "old" "new" true "docs/"
                                 (world_of [("docs/a.txt", 7%N)]))))
  = mutating_calls (sent (world_of [("docs/a.txt", 7%N)])).
Proof.
  apply (renameFile_empty_folder (cfg := s3_config) 1 "old" "new" "docs/"
           (world_of [("docs/a.txt", 7%N)])); (reflexivity || discriminate).
Defined.

(** *** The rename of a folder *)









Section FolderRename.
Context {cfg : Config}.
Variables (currentPrefix oldKey newKey : string) (w : World).

Local Abbreviation old' := (currentPrefix +:+ oldKey +:+ "/").
Local Abbreviation new' := (currentPrefix +:+ newKey +:+ "/").
Local Abbreviation plain prefix maxKeys :=
  {| list_Prefix := prefix; list_Delimiter := None;
     list_MaxKeys := maxKeys; list_ContinuationToken := None |}.

Hypothesis page_positive : 0 < maxKeysCeiling.
Hypothesis names_differ : oldKey <> newKey.
Hypothesis new_valid : isValidFolderName newKey = true.
Hypothesis new_plain : Js.some (Ascii.eqb "$") new' = false.
Hypothesis folders_plain :
  forallb (fun kv => negb (Js.endsWith kv.1 "/" && Js.some (Ascii.eqb "$") kv.1))
          (objects_under old' (bucket w)) = true.
Hypothesis new_free : count_under new' (bucket w) = 0.
Hypothesis one_page : 0 < count_under old' (bucket w) <= maxKeysCeiling.












End FolderRename.

